(** * waveapi/blip.py: annotations, shifting, region selection, mutation

    A shallow embedding of the document model of [waveapi/blip.py]:
    the [Annotation] value, the [Annotations] store with its merge/split
    engine, [Blip._shift], the text search of [BlipRefs._find] and the
    per-hit body of [BlipRefs._execute].

    Offsets are Python integers, modelled as [Z].  The annotation store
    [self._store] is a dict from names to lists, modelled as a [gmap];
    the element table [blip._elements] is a dict that the code iterates,
    so it is modelled as an association list in iteration order. *)

From Stdlib Require Import ZArith Ascii String.
From stdpp Require Import base gmap strings list.

Local Open Scope Z_scope.

(** ** Python values used by the code *)

(** Text: [blip._content] is a Python string; a list of characters.
    Python 2 has two string types.  A [text] is a [unicode] string, as
    the JSON data gives it (an ASCII byte string behaves like it in
    every operation used here).  A byte string that is handed in as a
    value to insert or as a name to clear is a value of its own, see
    [BlipRefs.Str] and [BlipRefs.StrName]. *)
Definition text := list ascii.

Definition len {A} (l : list A) : Z := Z.of_nat (length l).

(** The exceptions the modelled code can raise. *)
Inductive PyError :=
| IndexError (msg : string)
| ValueError (msg : string)
| AttributeError (msg : string)
| UnicodeDecodeError.

(** Python's class hierarchy: [IndexError] derives from [LookupError];
    [ValueError], [AttributeError] and [UnicodeDecodeError] (a
    [ValueError]) do not. *)
Definition is_LookupError (e : PyError) : bool :=
  match e with
  | IndexError _ => true
  | ValueError _ => false
  | AttributeError _ => false
  | UnicodeDecodeError => false
  end.

(** ** class Annotation *)

Module Annotation.

Record t := Make { _name : string; _value : string; _start : Z; _end : Z }.

#[global] Instance t_eq_dec : EqDecision t.
Proof. solve_decision. Defined.

(** [Annotation._shift]: the two tests are independent and strict. *)
Definition _shift (where_ inc : Z) (self : t) : t :=
  let start' := if _start self >? where_ then _start self + inc else _start self in
  let end' := if _end self >? where_ then _end self + inc else _end self in
  Make (_name self) (_value self) start' end'.

End Annotation.

Abbreviation Annotation := Annotation.t.
Abbreviation mkAnnotation := Annotation.Make.
Import Annotation (_name, _value, _start, _end).

(** ** class Annotations *)

Module Annotations.

(** [self._store]: name -> list of annotations with that name. *)
Abbreviation store := (gmap string (list Annotation)).

(** The [for existing in self._store[name]] loop of [_add_internal].
    [start] and [end] are reassigned by the merge branch, so they are
    threaded through the loop together with [new_list]. *)
Fixpoint _add_loop (value : string) (start end_ : Z)
    (new_list : list Annotation) (l : list Annotation)
    : Z * Z * list Annotation :=
  match l with
  | [] => (start, end_, new_list)
  | existing :: rest =>
      if (start >? _end existing) || (end_ <? _start existing) then
        _add_loop value start end_ (new_list ++ [existing]) rest
      else if decide (_value existing = value) then
        (* merge the annotations *)
        _add_loop value (Z.min (_start existing) start)
                  (Z.max (_end existing) end_) new_list rest
      else
        (* chop the bits off the existing annotation *)
        let new_list1 :=
          if _start existing <? start then
            new_list ++ [mkAnnotation (_name existing) (_value existing)
                                      (_start existing) start]
          else new_list in
        let new_list2 :=
          if _end existing >? end_ then
            new_list1 ++ [mkAnnotation (_name existing) (_value existing)
                                       (_end existing) end_]
          else new_list1 in
        _add_loop value start end_ new_list2 rest
  end.

Definition _add_internal (self : store) (name value : string)
    (start end_ : Z) : store :=
  match self !! name with
  | Some l =>
      let '(start', end', new_list) := _add_loop value start end_ [] l in
      <[name := new_list ++ [mkAnnotation name value start' end']]> self
  | None => <[name := [mkAnnotation name value start end_]]> self
  end.

(** The [for a in self._store[name]] loop of [_delete_internal]. *)
Fixpoint _delete_loop (name : string) (start end_ : Z)
    (new_list : list Annotation) (l : list Annotation) : list Annotation :=
  match l with
  | [] => new_list
  | a :: rest =>
      if (start >? _end a) || (end_ <? _start a) then
        _delete_loop name start end_ (new_list ++ [a]) rest
      else if (start <? _start a) && (end_ >? _end a) then
        _delete_loop name start end_ new_list rest
      else
        let new_list1 :=
          if _start a <? start then
            new_list ++ [mkAnnotation name (_value a) (_start a) start]
          else new_list in
        let new_list2 :=
          if _end a >? end_ then
            new_list1 ++ [mkAnnotation name (_value a) (_end a) end_]
          else new_list1 in
        _delete_loop name start end_ new_list2 rest
  end.

(** [_delete_internal]; [blip_len] is [len(self._blip)].  The Python
    defaults are [start=0], [end=-1]. *)
Definition _delete_internal (blip_len : Z) (self : store) (name : string)
    (start end_ : Z) : store :=
  match self !! name with
  | None => self
  | Some l =>
      let end' := if end_ <? 0 then blip_len + end_ else end_ in
      match _delete_loop name start end' [] l with
      | [] => delete name self
      | new_list => <[name := new_list]> self
      end
  end.

Definition default_start : Z := 0.
Definition default_end : Z := -1.

(** [Annotations._shift]: every stored annotation is shifted. *)
Definition _shift (where_ inc : Z) (self : store) : store :=
  fmap (M := gmap string) (map (Annotation._shift where_ inc)) self.

(** [what in annotations] for a name; an [Annotation] is looked up by
    its name. *)
Definition __contains__ (self : store) (what : string) : bool :=
  match self !! what with Some _ => true | None => false end.

Definition contains_annotation (self : store) (what : Annotation) : bool :=
  __contains__ self (_name what).

(** [len(annotations)]: the number of names, not of annotations. *)
Definition __len__ (self : store) : Z := Z.of_nat (size self).

End Annotations.

(** ** Python dicts that the code iterates

    [blip._elements] is a dict from offsets to elements.  [Blip._shift]
    rebuilds it by iterating [items()], and two entries can be sent to the
    same new key, so the iteration order decides which one survives.  The
    list order of the model is the iteration order of the dict; keys are
    unique.  Where a new key comes in the iteration order is decided in
    CPython 2 by its hash slot and is not modelled: [set] puts it last.
    Statements about a table are therefore made for every order of its
    entries, and about a table after an update on lookups only. *)

Module Dict.

Section Ops.
Context {K V : Type} `{EqDecision K}.

Definition t := list (K * V).

(** [d.get(k)], [None] when the key is absent. *)
Fixpoint get (k : K) (d : t) : option V :=
  match d with
  | [] => None
  | (k', v) :: d' => if decide (k' = k) then Some v else get k d'
  end.

(** [k in d] *)
Definition contains (k : K) (d : t) : bool :=
  match get k d with Some _ => true | None => false end.

(** [d[k] = v]: an existing key keeps its place, a new one goes last. *)
Fixpoint set (k : K) (v : V) (d : t) : t :=
  match d with
  | [] => [(k, v)]
  | (k', v') :: d' =>
      if decide (k' = k) then (k, v) :: d' else (k', v') :: set k v d'
  end.

(** [del d[k]] for a key known to be present (a no-op otherwise). *)
Fixpoint del (k : K) (d : t) : t :=
  match d with
  | [] => []
  | (k', v') :: d' => if decide (k' = k) then d' else (k', v') :: del k d'
  end.

Definition keys (d : t) : list K := d.*1.

End Ops.

Arguments t : clear implicits.

End Dict.

(** ** Elements *)

(** Modelled from the spec: the [element] module ([element.Element]) is
    not part of the sources at hand.  An element has a [type]
    discriminator and a map of [properties] from string keys to values;
    [setattr(el, k, b)] stores [b] under [k].  Elements are values here;
    in Python one element object inserted at several hits is shared by
    the offsets it is registered under. *)
Record Element := mkElement {
  el_type : string;
  el_properties : Dict.t string string
}.

Definition setattr (el : Element) (k b : string) : Element :=
  mkElement (el_type el) (Dict.set k b (el_properties el)).

(** [import element]: a module object, which Python treats as true. *)
Definition element_module_is_true : bool := true.

(** ** Python string operations *)

(** [s[:i]] and [s[i:]] for any integer [i] (negative indices count from
    the end, everything is clamped to the string). *)
Definition clamp_index {A} (s : list A) (i : Z) : nat :=
  Z.to_nat (if i <? 0 then Z.max 0 (i + len s) else Z.min i (len s)).

Definition slice_to {A} (s : list A) (i : Z) : list A := take (clamp_index s i) s.
Definition slice_from {A} (s : list A) (i : Z) : list A := drop (clamp_index s i) s.

(** [s[i:j]]: empty when the clamped [j] is not beyond the clamped [i]. *)
Definition slice {A} (s : list A) (i j : Z) : list A :=
  take (clamp_index s j - clamp_index s i) (drop (clamp_index s i) s).

Fixpoint starts_with (sub s : text) : bool :=
  match sub, s with
  | [], _ => true
  | _ :: _, [] => false
  | c :: sub', d :: s' => if decide (c = d) then starts_with sub' s' else false
  end.

(** Offset of the first occurrence of [sub] in [s]. *)
Fixpoint find_first (sub s : text) : option nat :=
  if starts_with sub s then Some 0%nat
  else match s with
       | [] => None
       | _ :: s' => S <$> find_first sub s'
       end.

(** [s.find(sub, start)]: lowest index at or after [start] where [sub]
    occurs, [-1] when there is none. *)
Definition str_find (s sub : text) (start : Z) : Z :=
  let start := if start <? 0 then Z.max 0 (start + len s) else start in
  if start >? len s then -1
  else match find_first sub (drop (Z.to_nat start) s) with
       | Some k => start + Z.of_nat k
       | None => -1
       end.

(** ** class Blip *)

Module Blip.

Record t := Make {
  _content : text;
  _elements : Dict.t Z Element;
  _annotations : Annotations.store
}.

(** [len(blip)] is [len(self._content)]. *)
Definition __len__ (self : t) : Z := len (_content self).

(** The loop of [Blip._shift] that fills [new_elements]. *)
Definition _shift_elements (where_ inc : Z) (elements : Dict.t Z Element)
    : Dict.t Z Element :=
  foldl (fun new_elements '(idx, el) =>
           let idx := if idx >=? where_ then idx + inc else idx in
           Dict.set idx el new_elements)
        [] elements.

(** [Blip._shift]: move elements and annotations after [where] up by [inc]. *)
Definition _shift (where_ inc : Z) (self : t) : t :=
  Make (_content self)
       (_shift_elements where_ inc (_elements self))
       (Annotations._shift where_ inc (_annotations self)).

(** [Blip.__init__], the part that seeds content, annotations and
    elements: the annotations of the JSON list are added one by one, in
    order, with [_add_internal]; the elements are registered under
    [int(key)] in the order the JSON table is iterated.  The other
    fields of the JSON data pass through and are not modelled. *)
Definition __init__ (content : text)
    (annotations : list (string * string * Z * Z))
    (elements : list (Z * Element)) : t :=
  Make content
       (foldl (fun d '(idx, el) => Dict.set idx el d) [] elements)
       (foldl (fun st '(name, value, start, end_) =>
                 Annotations._add_internal st name value start end_)
              ∅ annotations).

End Blip.

Abbreviation Blip := Blip.t.
Import Blip (_content, _elements, _annotations).

(** ** class BlipRefs *)

Module BlipRefs.

(** How [self._hits] was set up: by [BlipRefs.all] (a call of [_find],
    with [findwhat] either [None] or a string) or by [BlipRefs.range].
    Searching by element class is not modelled. *)
Inductive Hits :=
| All (findwhat : option text) (maxres : Z)
| Range (begin end_ : Z).

(** Where a suspended hit iterator stands: not started, or suspended at
    the [yield] with the local variables [idx] and [count]. *)
Inductive Cursor :=
| Fresh
| Yielded (idx count : Z).

(** One resumption of the iterator on the blip as it is now: the next
    hit and the new cursor, or [None] when the iteration stops.  For a
    string this is the [while idx != -1] loop of [_find]; [find] reads
    the current [blip._content] at every resumption. *)
Definition next_hit (blip : Blip) (hits : Hits) (cur : Cursor)
    : option ((Z * Z) * Cursor) :=
  match hits, cur with
  | Range begin end_, Fresh => Some ((begin, end_), Yielded begin 0)
  | Range _ _, Yielded _ _ => None
  | All None _, Fresh => Some ((0, Blip.__len__ blip), Yielded 0 0)
  | All None _, Yielded _ _ => None
  | All (Some what) maxres, Fresh =>
      let idx := str_find (_content blip) what 0 in
      if idx =? -1 then None
      else Some ((idx, idx + len what), Yielded idx 0)
  | All (Some what) maxres, Yielded idx count =>
      let count := count + 1 in
      if count =? maxres then None
      else
        let idx := str_find (_content blip) what (idx + len what) in
        if idx =? -1 then None
        else Some ((idx, idx + len what), Yielded idx count)
  end.

(** All the hits of [_find(what, maxres)] on a blip that is not modified
    in between; [None] when [fuel] resumptions do not exhaust them. *)
Fixpoint _find_from (fuel : nat) (blip : Blip) (what : text) (maxres : Z)
    (cur : Cursor) : option (list (Z * Z)) :=
  match fuel with
  | O => None
  | S fuel' =>
      match next_hit blip (All (Some what) maxres) cur with
      | None => Some []
      | Some (hit, cur') =>
          cons hit <$> _find_from fuel' blip what maxres cur'
      end
  end.

Definition _find (fuel : nat) (blip : Blip) (what : text) (maxres : Z)
    : option (list (Z * Z)) :=
  _find_from fuel blip what maxres Fresh.

(** What is inserted: a [unicode] string, an element, or a byte string
    ([str]).  A byte string is given by what [decode('utf-8')] makes of
    it: the text it decodes to, or [None] when the bytes are not valid
    UTF-8 and the decoding raises. *)
Inductive Content :=
| Text (s : text)
| Elem (e : Element)
| Str (decoded : option text).

(** The name of an annotation to clear: a [unicode] string or a byte
    string, given in the same way. *)
Inductive Name :=
| UnicodeName (s : string)
| StrName (decoded : option string).

(** [modify_how] together with [what], already wrapped into a list (the
    code wraps a non-list [what] into [[what]] first, so the later
    [callable(what)] tests see a list and their branches are dead).
    Each operation carries values of the type its branch uses. *)
Inductive Mutation :=
| DELETE
| REPLACE (what : list Content)
| INSERT (what : list Content)
| INSERT_AFTER (what : list Content)
| ANNOTATE (what : list (string * string))
| CLEAR_ANNOTATION (what : list Name)
| UPDATE_ELEMENT (what : list (Dict.t string string)).

(** The locals of [_execute] that change from hit to hit. *)
Record Exec := mkExec {
  blip : Blip;
  next_index : Z;
  updated_elements : list Element
}.

(** The start of the loop body: relative offsets are made absolute. *)
Definition normalize (n start end_ : Z) : Z * Z :=
  let '(start, end_) :=
    if start <? 0 then (start + n, if end_ =? 0 then end_ + n else end_)
    else (start, end_) in
  let end_ := if end_ <? 0 then end_ + n else end_ in
  (start, end_).

(** The range checks on the normalized offsets. *)
Definition check_range (n start end_ : Z) : option PyError :=
  if n =? 0 then
    if negb (start =? 0) || negb (end_ =? 0) then
      Some (IndexError "Start and end have to be 0 for empty document")
    else None
  else if (start <? 0) || (end_ <? 1) || (start >=? n) || (end_ >? n) then
    Some (IndexError "Position outside the document")
  else None.

(** [what[next_index]], then [next_index = (next_index + 1) % len(what)]. *)
Definition pick {A} (what : list A) (i : Z) : PyError + (A * Z) :=
  match what !! Z.to_nat i with
  | None => inl (IndexError "list index out of range")
  | Some next => inr (next, (i + 1) mod len what)
  end.

(** [if isinstance(next, str): next = next.decode('utf-8')], for a value
    to insert and for a name: a byte string becomes its text or the
    decoding raises; anything else is left as it is.  What is left is a
    string ([basestring]) or an element. *)
Definition decode (next : Content) : PyError + (text + Element) :=
  match next with
  | Text s => inr (inl s)
  | Elem e => inr (inr e)
  | Str (Some s) => inr (inl s)
  | Str None => inl UnicodeDecodeError
  end.

Definition decode_name (next : Name) : PyError + string :=
  match next with
  | UnicodeName s => inr s
  | StrName (Some s) => inr s
  | StrName None => inl UnicodeDecodeError
  end.

(** The text branch and the element branch of an insertion at
    [(start, end)]. *)
Definition splice (b : Blip) (next : text + Element) (start end_ : Z) : Blip :=
  match next with
  | inl s =>
      let b := Blip._shift end_ (len s + start - end_) b in
      Blip.Make (slice_to (_content b) start ++ s ++ slice_from (_content b) end_)
                (_elements b) (_annotations b)
  | inr e =>
      let b := Blip._shift end_ (1 + start - end_) b in
      Blip.Make (slice_to (_content b) start ++ [" "%char] ++ slice_from (_content b) end_)
                (Dict.set start e (_elements b)) (_annotations b)
  end.

Definition with_blip (st : Exec) (b : Blip) : Exec :=
  mkExec b (next_index st) (updated_elements st).

(** The body of the [for start, end in self._hits()] loop. *)
Definition execute_hit (how : Mutation) (st : Exec) (hit : Z * Z)
    : PyError + Exec :=
  let b := blip st in
  let '(start, end_) := normalize (Blip.__len__ b) hit.1 hit.2 in
  match check_range (Blip.__len__ b) start end_ with
  | Some err => inl err
  | None =>
      let insert what start end_ :=
        match pick what (next_index st) with
        | inl err => inl err
        | inr (next, i) =>
            match decode next with
            | inl err => inl err
            | inr next =>
                inr (mkExec (splice b next start end_) i (updated_elements st))
            end
        end in
      match how with
      | DELETE =>
          let elements :=
            foldl (fun els i => if Dict.contains i els then Dict.del i els else els)
                  (_elements b) (seqZ start (end_ - start)) in
          let b := Blip._shift end_ (start - end_)
                     (Blip.Make (_content b) elements (_annotations b)) in
          inr (with_blip st
                 (Blip.Make (slice_to (_content b) start ++ slice_from (_content b) end_)
                            (_elements b) (_annotations b)))
      | ANNOTATE what =>
          match pick what (next_index st) with
          | inl err => inl err
          | inr ((key, value), i) =>
              inr (mkExec
                     (Blip.Make (_content b) (_elements b)
                        (Annotations._add_internal (_annotations b) key value start end_))
                     i (updated_elements st))
          end
      | CLEAR_ANNOTATION what =>
          match pick what (next_index st) with
          | inl err => inl err
          | inr (next, i) =>
              match decode_name next with
              | inl err => inl err
              | inr next =>
                  inr (mkExec
                         (Blip.Make (_content b) (_elements b)
                            (Annotations._delete_internal (Blip.__len__ b)
                               (_annotations b) next start end_))
                         i (updated_elements st))
              end
          end
      | UPDATE_ELEMENT what =>
          match pick what (next_index st) with
          | inl err => inl err
          | inr (next, i) =>
              let el := Dict.get start (_elements b) in
              if negb element_module_is_true then
                inl (ValueError "No element found at index")
              else
                match el with
                | None =>
                    inl (AttributeError "'NoneType' object has no attribute 'type'")
                | Some el =>
                    let el' := foldl (fun el '(k, v) => setattr el k v) el next in
                    inr (mkExec
                           (Blip.Make (_content b) (Dict.set start el' (_elements b))
                                      (_annotations b))
                           i
                           (updated_elements st ++ [mkElement (el_type el) next]))
                end
          end
      | INSERT what => insert what start start
      | INSERT_AFTER what => insert what end_ end_
      | REPLACE what => insert what start end_
      end
  end.

(** After the loop [_execute] describes the operation for the queue.
    Of that, the two subscripts that can fail are modelled: for ANNOTATE
    [what[0][0]] and for CLEAR_ANNOTATION [what[0]] raise [IndexError]
    when [what] is an empty list (the other operations test [if what]
    first or do not read [what]). *)
Definition describe (how : Mutation) (st : Exec) : PyError * Blip + Exec :=
  match how with
  | ANNOTATE [] => inl (IndexError "list index out of range", blip st)
  | CLEAR_ANNOTATION [] => inl (IndexError "list index out of range", blip st)
  | _ => inr st
  end.

(** The whole loop: the iterator is resumed on the blip as the previous
    hits left it.  [None] when [fuel] iterations are not enough; an
    exception is returned with the blip as it stands when it is raised. *)
Fixpoint execute_loop (fuel : nat) (hits : Hits) (how : Mutation)
    (cur : Cursor) (st : Exec) : option (PyError * Blip + Exec) :=
  match fuel with
  | O => None
  | S fuel' =>
      match next_hit (blip st) hits cur with
      | None => Some (describe how st)
      | Some (hit, cur') =>
          match execute_hit how st hit with
          | inl err => Some (inl (err, blip st))
          | inr st' => execute_loop fuel' hits how cur' st'
          end
      end
  end.

(** [_execute]: the loop and the description of the operation (the
    queue that takes it is not modelled).  An exception leaves the loop
    with the blip as the earlier hits made it: every [raise] of the loop
    body comes before the body's first assignment to the blip. *)
Definition _execute (fuel : nat) (b : Blip) (hits : Hits) (how : Mutation)
    : option (PyError * Blip + Exec) :=
  execute_loop fuel hits how Fresh (mkExec b 0 []).

(** [__nonzero__]: whether there is a first hit. *)
Definition __nonzero__ (b : Blip) (hits : Hits) : bool :=
  match next_hit b hits Fresh with
  | Some _ => true
  | None => false
  end.

(** What a hit stands for, in [value] and in [Blip.find]: the element
    registered at [start] when the hit is one wide and there is one,
    the text [content[start:end]] otherwise.  The offsets are used as
    they come, without the normalization of [_execute]. *)
Definition item_at (b : Blip) (start end_ : Z) : Content :=
  if end_ - start =? 1 then
    match Dict.get start (_elements b) with
    | Some el => Elem el
    | None => Text (slice (_content b) start end_)
    end
  else Text (slice (_content b) start end_).

(** [value]: the item of the first hit. *)
Definition value (b : Blip) (hits : Hits) : PyError + Content :=
  match next_hit b hits Fresh with
  | Some ((start, end_), _) => inr (item_at b start end_)
  | None => inl (ValueError "BlipRefs has no values")
  end.

End BlipRefs.

(** ** class Blip: the methods that build and use a [BlipRefs]

    They come after [BlipRefs] here because they are defined by it. *)

Module BlipQuery.

(** [blip.all(findwhat, maxres)], [blip.first(findwhat)], [blip.at(index)]
    and [blip.range(start, end)]. *)
Definition all (findwhat : option text) (maxres : Z) : BlipRefs.Hits :=
  BlipRefs.All findwhat maxres.

Definition first (findwhat : option text) : BlipRefs.Hits :=
  BlipRefs.All findwhat 1.

Definition at_ (index : Z) : BlipRefs.Hits :=
  BlipRefs.Range index (index + 1).

Definition range (start end_ : Z) : BlipRefs.Hits :=
  BlipRefs.Range start end_.

(** [blip[item]] for an index or a slice with integer bounds and no
    step. *)
Inductive Item :=
| Index (index : Z)
| Slice (start stop : Z).

Definition __getitem__ (item : Item) : BlipRefs.Hits :=
  match item with
  | Slice start stop => range start stop
  | Index index => at_ index
  end.

(** [blip[item] = value] and [del blip[item]]. *)
Definition __setitem__ (fuel : nat) (b : Blip) (item : Item)
    (value : list BlipRefs.Content) : option (PyError * Blip + BlipRefs.Exec) :=
  BlipRefs._execute fuel b (__getitem__ item) (BlipRefs.REPLACE value).

Definition __delitem__ (fuel : nat) (b : Blip) (item : Item)
    : option (PyError * Blip + BlipRefs.Exec) :=
  BlipRefs._execute fuel b (__getitem__ item) BlipRefs.DELETE.

(** [blip.append(what)]: insert after the whole blip. *)
Definition append (fuel : nat) (b : Blip) (what : list BlipRefs.Content)
    : option (PyError * Blip + BlipRefs.Exec) :=
  BlipRefs._execute fuel b (all None (-1)) (BlipRefs.INSERT_AFTER what).


End BlipQuery.

(** ** The store invariant of the data model *)

(** [start <= end] *)
Definition well_formed (a : Annotation) : bool := _start a <=? _end a.

(** The half-open ranges [[start, end)] of [a] and [b] share a position. *)
Definition overlaps (a b : Annotation) : bool :=
  Z.max (_start a) (_start b) <? Z.min (_end a) (_end b).

Fixpoint pairwise_disjoint (l : list Annotation) : bool :=
  match l with
  | [] => true
  | a :: l' => forallb (fun b => negb (overlaps a b)) l' && pairwise_disjoint l'
  end.

Definition list_inv (l : list Annotation) : bool :=
  forallb well_formed l && pairwise_disjoint l.

Definition store_inv (st : Annotations.store) : Prop :=
  map_Forall (fun _ l => list_inv l = true) st.

(** The store holding only (n, "a", 0, 10). *)
Definition one_a : Annotations.store :=
  {[ "n"%string := [mkAnnotation "n" "a" 0 10] ]}.

(** The store holding only (n, v, 0, 10). *)
Definition one_v : Annotations.store :=
  {[ "n"%string := [mkAnnotation "n" "v" 0 10] ]}.

(** A five-character document whose only annotation spans all of it. *)
Definition hello : Blip :=
  Blip.Make (list_ascii_of_string "hello") []
            {[ "n"%string := [mkAnnotation "n" "v" 0 5] ]}.

(** ** Vocabulary of the statements *)

(** *** Shifting *)

(** The offset an element at [idx] is re-registered under. *)
Definition new_index (where_ inc idx : Z) : Z :=
  if idx >=? where_ then idx + inc else idx.

Definition rekeyed (where_ inc : Z) (elements : Dict.t Z Element)
    : Dict.t Z Element :=
  map (fun '(idx, el) => (new_index where_ inc idx, el)) elements.

(** *** Range validation *)

(** The rule in the words of the specification: a negative offset is
    made absolute by adding len(content) ... *)
Definition relative (n x : Z) : Z := if x <? 0 then x + n else x.

(** ... and then only (0, 0) is accepted on an empty document, and on a
    non-empty one 0 <= start, 1 <= end, start < len, end <= len. *)
Definition in_range (n start end_ : Z) : Prop :=
  if decide (n = 0) then start = 0 /\ end_ = 0
  else 0 <= start /\ 1 <= end_ /\ start < n /\ end_ <= n.

#[global] Instance in_range_dec n start end_ : Decision (in_range n start end_).
Proof. unfold in_range. destruct (decide (n = 0)); apply _. Defined.

(** The two out-of-range errors of the loop body. *)
Definition empty_document_error : PyError :=
  IndexError "Start and end have to be 0 for empty document".
Definition position_error : PyError :=
  IndexError "Position outside the document".

(** Closes an equivalence between a decided outcome of the checks and
    the arithmetic that decides it. *)
Ltac range_case :=
  let H := fresh "H" in
  split; intros H;
  [ first [discriminate H | lia]
  | first [reflexivity | exfalso; lia] ].

(** *** Text search *)

(** [sub] occurs in [s] at offset [i]. *)
Definition occurs_at (s sub : text) (i : Z) : Prop :=
  0 <= i <= len s /\ sub `prefix_of` drop (Z.to_nat i) s.

(** [hits] is what a left-to-right scan from [pos] yields: every hit is
    the first occurrence at or after the point the scan stands at, spans
    the pattern, and the scan goes on from the end of the hit. *)
Fixpoint scan (s sub : text) (pos : Z) (hits : list (Z * Z)) : Prop :=
  match hits with
  | [] => True
  | (i, j) :: rest =>
      pos <= i /\ occurs_at s sub i
      /\ (forall k, pos <= k < i -> ~ occurs_at s sub k)
      /\ j = i + len sub
      /\ scan s sub j rest
  end.

(** Where the scan stands after [hits]. *)
Fixpoint scan_end (pos : Z) (hits : list (Z * Z)) : Z :=
  match hits with
  | [] => pos
  | (_, j) :: rest => scan_end j rest
  end.

(** No occurrence is left after [hits]. *)
Definition exhausted (s sub : text) (pos : Z) (hits : list (Z * Z)) : Prop :=
  forall k, scan_end pos hits <= k -> ~ occurs_at s sub k.

(** Where the search goes on from when it is resumed at [cur]. *)
Definition resume_pos (what : text) (cur : BlipRefs.Cursor) : Z :=
  match cur with
  | BlipRefs.Fresh => 0
  | BlipRefs.Yielded idx _ => idx + len what
  end.

(** The cursors the search can be in: offsets and counts are not
    negative. *)
Definition cursor_ok (cur : BlipRefs.Cursor) : Prop :=
  match cur with
  | BlipRefs.Fresh => True
  | BlipRefs.Yielded idx count => 0 <= idx /\ 0 <= count
  end.

(** *** Annotation stores *)

(** Every annotation is filed under its own name. *)
Definition names_consistent (st : Annotations.store) : Prop :=
  map_Forall (fun name l => Forall (fun a => _name a = name) l) st.

(** The annotation does not meet the range, in the sense of the tests of
    [_add_internal] and [_delete_internal] (touching counts as meeting). *)
Definition apart (start end_ : Z) (a : Annotation) : Prop :=
  start > _end a \/ end_ < _start a.

(** The annotation has its bounds in order and lies within the range. *)
Definition within (start end_ : Z) (a : Annotation) : Prop :=
  start <= _start a /\ _start a <= _end a /\ _end a <= end_.

(** *** Sample documents *)

(** Plain documents without elements or annotations. *)
Definition abc : Blip := Blip.Make (list_ascii_of_string "abc") [] ∅.
Definition banana : Blip := Blip.Make (list_ascii_of_string "banana") [] ∅.

Definition gadget : Element := mkElement "GADGET" [].
Definition image : Element := mkElement "IMAGE" [].

(** A document of ten characters with elements at offsets 2 and 9; the
    table is iterated with offset 9 first. *)
Definition ten : Blip :=
  Blip.Make (list_ascii_of_string "ab cdefgh ") [(9, gadget); (2, image)] ∅.

(** ** Annotations: adding *)

(** Whenever an annotation [e] of another value reaches beyond the end
    of the added range, the piece kept to the right of it is stored as
    (e.end, end): its start is beyond its end. *)
Lemma add_right_remainder (st : Annotations.store) (name value : string)
    (start end_ : Z) (e : Annotation) :
  st !! name = Some [e] ->
  start <= _end e -> _start e <= end_ ->
  _value e <> value ->
  end_ < _end e ->
  exists pieces,
    Annotations._add_internal st name value start end_ !! name = Some pieces
    /\ mkAnnotation (_name e) (_value e) (_end e) end_ ∈ pieces
    /\ well_formed (mkAnnotation (_name e) (_value e) (_end e) end_) = false.
Proof.
  intros Hst H1 H2 Hv Hend. unfold Annotations._add_internal. rewrite Hst.
  cbn [Annotations._add_loop].
  replace (start >? _end e) with false by (symmetry; lia).
  replace (end_ <? _start e) with false by (symmetry; lia).
  cbn [orb]. rewrite decide_False by exact Hv.
  replace (_end e >? end_) with true by (symmetry; lia).
  eexists. split; [apply lookup_insert_eq|]. split.
  - rewrite !elem_of_app, !list_elem_of_singleton. left. right. reflexivity.
  - unfold well_formed. cbn. lia.
Qed.

(** C1 (the code departs from the claim).  Starting from a store holding
    only (n, "a", 0, 10), adding (n, "b", 4, 6) keeps the left remainder
    (n, "a", 0, 4) but stores the right remainder with its bounds
    swapped, (n, "a", 10, 6), where the claim has (n, "a", 6, 10); the
    resulting store is not the one the claim describes. *)
Theorem C1_add_right_remainder_is_swapped :
  Annotations._add_internal one_a "n" "b" 4 6
    = {[ "n"%string := [mkAnnotation "n" "a" 0 4; mkAnnotation "n" "a" 10 6;
                        mkAnnotation "n" "b" 4 6] ]}
  /\ Annotations._add_internal one_a "n" "b" 4 6
    <> {[ "n"%string := [mkAnnotation "n" "a" 0 4; mkAnnotation "n" "a" 6 10;
                         mkAnnotation "n" "b" 4 6] ]}.
Proof.
  assert (E : Annotations._add_internal one_a "n" "b" 4 6
    = {[ "n"%string := [mkAnnotation "n" "a" 0 4; mkAnnotation "n" "a" 10 6;
                        mkAnnotation "n" "b" 4 6] ]})
    by (vm_compute; reflexivity).
  split; [exact E|].
  rewrite E. intros H.
  apply (f_equal (fun m : Annotations.store => m !! "n"%string)) in H.
  rewrite !lookup_singleton_eq in H. discriminate H.
Qed.

(** Two adds of one value under one name, from the empty store, with
    ranges that meet or touch: one annotation over both ranges is left,
    whichever comes first. *)
Lemma add_twice_same_value (n v : string) (s1 e1 s2 e2 : Z) :
  s2 <= e1 -> s1 <= e2 ->
  Annotations._add_internal (Annotations._add_internal ∅ n v s1 e1) n v s2 e2
  = {[ n := [mkAnnotation n v (Z.min s1 s2) (Z.max e1 e2)] ]}.
Proof.
  intros H1 H2. unfold Annotations._add_internal at 2. rewrite lookup_empty.
  unfold Annotations._add_internal. rewrite lookup_insert_eq.
  cbn [Annotations._add_loop _start _end _value].
  replace (s2 >? e1) with false by (symmetry; lia).
  replace (e2 <? s1) with false by (symmetry; lia).
  cbn [orb]. rewrite decide_True by reflexivity. cbn [app].
  rewrite insert_insert_eq, insert_empty. reflexivity.
Qed.

(** C9.  For every name n and value v: from the empty store, adding
    (n, v, 0, 5) and then (n, v, 3, 8) leaves the single annotation
    (n, v, 0, 8), and so does adding them in the other order. *)
Theorem C9_add_same_value_either_order (n v : string) :
  Annotations._add_internal (Annotations._add_internal ∅ n v 0 5) n v 3 8
    = {[ n := [mkAnnotation n v 0 8] ]}
  /\ Annotations._add_internal (Annotations._add_internal ∅ n v 3 8) n v 0 5
    = {[ n := [mkAnnotation n v 0 8] ]}.
Proof.
  split.
  - rewrite add_twice_same_value by lia. reflexivity.
  - rewrite add_twice_same_value by lia. reflexivity.
Qed.

(** C10.  When the entry for [name] is the single annotation
    (name, v, a, b), adding (name, v, b, c) with a <= b <= c merges the
    two, although they only touch at [b]: the entry becomes the single
    annotation (name, v, a, c). *)
Theorem C10_add_merges_touching (st : Annotations.store) (name v : string)
    (a b c : Z) :
  st !! name = Some [mkAnnotation name v a b] ->
  a <= b -> b <= c ->
  Annotations._add_internal st name v b c
    = <[name := [mkAnnotation name v a c]]> st.
Proof.
  intros Hst Hab Hbc. unfold Annotations._add_internal. rewrite Hst.
  cbn [Annotations._add_loop _start _end _value].
  replace (b >? b) with false by (symmetry; lia).
  replace (c <? a) with false by (symmetry; lia).
  cbn [orb]. rewrite decide_True by reflexivity.
  rewrite Z.min_l, Z.max_r by lia. reflexivity.
Qed.

Lemma C10_add_merges_touching_witness :
  Annotations._add_internal {[ "k"%string := [mkAnnotation "k" "x" 1 3] ]} "k" "x" 3 7
    = <["k"%string := [mkAnnotation "k" "x" 1 7]]>
        {[ "k"%string := [mkAnnotation "k" "x" 1 3] ]}.
Proof.
  apply (C10_add_merges_touching _ "k" "x" 1 3 7).
  - apply lookup_singleton_eq.
  - lia.
  - lia.
Defined.

(** ** Annotations: removing *)

(** The same for a removal that ends inside an annotation [a]. *)
Lemma delete_right_remainder (blip_len : Z) (st : Annotations.store)
    (name : string) (start end_ : Z) (a : Annotation) :
  st !! name = Some [a] ->
  0 <= end_ ->
  start <= _end a -> _start a <= end_ ->
  end_ < _end a ->
  exists pieces,
    Annotations._delete_internal blip_len st name start end_ !! name = Some pieces
    /\ mkAnnotation name (_value a) (_end a) end_ ∈ pieces
    /\ well_formed (mkAnnotation name (_value a) (_end a) end_) = false.
Proof.
  intros Hst Hpos H1 H2 Hend. unfold Annotations._delete_internal. rewrite Hst.
  replace (end_ <? 0) with false by (symmetry; lia).
  cbn [Annotations._delete_loop].
  replace (start >? _end a) with false by (symmetry; lia).
  replace (end_ <? _start a) with false by (symmetry; lia).
  replace (end_ >? _end a) with false by (symmetry; lia).
  rewrite andb_false_r. cbn [orb].
  replace (_end a >? end_) with true by (symmetry; lia).
  assert (Hwf : well_formed (mkAnnotation name (_value a) (_end a) end_) = false)
    by (unfold well_formed; cbn; lia).
  destruct (_start a <? start); cbn [app].
  - eexists. split; [apply lookup_insert_eq|]. split; [|exact Hwf].
    right. left.
  - eexists. split; [apply lookup_insert_eq|]. split; [|exact Hwf].
    left.
Qed.

(** C2 (the code departs from the claim).  On a store holding only
    (n, v, 0, 10), remove(n, 2, 8) keeps the left remainder (n, v, 0, 2)
    but stores the right remainder with its bounds swapped,
    (n, v, 10, 8), where the claim has (n, v, 8, 10). *)
Theorem C2_remove_right_remainder_is_swapped (blip_len : Z) :
  Annotations._delete_internal blip_len one_v "n" 2 8
    = {[ "n"%string := [mkAnnotation "n" "v" 0 2; mkAnnotation "n" "v" 10 8] ]}
  /\ Annotations._delete_internal blip_len one_v "n" 2 8
    <> {[ "n"%string := [mkAnnotation "n" "v" 0 2; mkAnnotation "n" "v" 8 10] ]}.
Proof.
  assert (E : Annotations._delete_internal blip_len one_v "n" 2 8
    = {[ "n"%string := [mkAnnotation "n" "v" 0 2; mkAnnotation "n" "v" 10 8] ]})
    by (vm_compute; reflexivity).
  split; [exact E|].
  rewrite E. intros H.
  apply (f_equal (fun m : Annotations.store => m !! "n"%string)) in H.
  rewrite !lookup_singleton_eq in H. discriminate H.
Qed.

(** C5 (the code departs from the claim).  The stores [one_a] and
    [one_v] satisfy the invariant, yet adding (n, "b", 4, 6) to the
    first and remove(n, 2, 8) on the second both leave a store that
    breaks it: the right remainder is stored with start > end. *)
Theorem C5_invariant_broken_by_swapped_remainder :
  store_inv one_a /\ ~ store_inv (Annotations._add_internal one_a "n" "b" 4 6)
  /\ store_inv one_v /\ ~ store_inv (Annotations._delete_internal 10 one_v "n" 2 8).
Proof.
  assert (Hone : forall l, list_inv l = true ->
            store_inv ({[ "n"%string := l ]} : Annotations.store)).
  { intros l Hl k l' Hk. apply lookup_singleton_Some in Hk as [_ <-]. exact Hl. }
  assert (Hbad : forall (st : Annotations.store) l,
            st !! "n"%string = Some l -> list_inv l = false -> ~ store_inv st).
  { intros st l Hk Hl Hinv. specialize (Hinv _ _ Hk). cbn in Hinv. congruence. }
  split; [apply Hone; reflexivity|].
  split; [eapply Hbad; [vm_compute; reflexivity | reflexivity]|].
  split; [apply Hone; reflexivity|].
  eapply Hbad; [vm_compute; reflexivity | reflexivity].
Qed.

(** C3, as stated, fails: on the five-character document [hello], whose
    only annotation is (n, v, 0, 5), remove(n, 0) with the default end
    does not act as a removal up to len(document) = 5.  Removing up to 5
    deletes the entry for n; the default end is taken as 5 + (-1) = 4,
    which leaves an entry for n behind. *)
Lemma C3_default_end_is_not_len :
  Annotations._delete_internal (Blip.__len__ hello) (_annotations hello) "n"
      Annotations.default_start Annotations.default_end
    <> Annotations._delete_internal (Blip.__len__ hello) (_annotations hello) "n"
         Annotations.default_start (Blip.__len__ hello)
  /\ Annotations._delete_internal (Blip.__len__ hello) (_annotations hello) "n"
       Annotations.default_start (Blip.__len__ hello) = ∅
  /\ Annotations._delete_internal (Blip.__len__ hello) (_annotations hello) "n"
       Annotations.default_start Annotations.default_end
     = {[ "n"%string := [mkAnnotation "n" "v" 5 4] ]}.
Proof.
  assert (E1 : Annotations._delete_internal (Blip.__len__ hello)
                 (_annotations hello) "n"
                 Annotations.default_start (Blip.__len__ hello) = ∅)
    by (vm_compute; reflexivity).
  assert (E2 : Annotations._delete_internal (Blip.__len__ hello)
                 (_annotations hello) "n"
                 Annotations.default_start Annotations.default_end
               = {[ "n"%string := [mkAnnotation "n" "v" 5 4] ]})
    by (vm_compute; reflexivity).
  split; [|split; assumption].
  rewrite E1, E2. intros H.
  apply (f_equal (fun m : Annotations.store => m !! "n"%string)) in H.
  rewrite lookup_singleton_eq, lookup_empty in H. discriminate H.
Qed.

(** C3, amended.  A negative end argument is relative to the end of the
    document: the pieces that survive for [name] are those of the
    clipping loop run with end = len(document) + end, and, when that sum
    is not negative, the call equals the call with end given as
    len(document) + end.  For the default end = -1 this is
    len(document) - 1. *)
Theorem C3_negative_end_is_relative (blip_len : Z) (st : Annotations.store)
    (name : string) (start end_ : Z) (l : list Annotation) :
  end_ < 0 ->
  st !! name = Some l ->
  default [] (Annotations._delete_internal blip_len st name start end_ !! name)
    = Annotations._delete_loop name start (blip_len + end_) [] l
  /\ (0 <= blip_len + end_ ->
      Annotations._delete_internal blip_len st name start end_
        = Annotations._delete_internal blip_len st name start (blip_len + end_)).
Proof.
  intros Hneg Hst. unfold Annotations._delete_internal. rewrite Hst.
  replace (end_ <? 0) with true by (symmetry; lia).
  split.
  - destruct (Annotations._delete_loop name start (blip_len + end_) [] l) eqn:E.
    + rewrite lookup_delete_eq. reflexivity.
    + rewrite lookup_insert_eq. reflexivity.
  - intros Hge.
    replace (blip_len + end_ <? 0) with false by (symmetry; lia).
    reflexivity.
Qed.

Lemma C3_negative_end_is_relative_witness :
  default [] (Annotations._delete_internal 5 (_annotations hello) "n" 0 (-1)
                !! "n"%string)
    = Annotations._delete_loop "n" 0 (5 + -1) [] [mkAnnotation "n" "v" 0 5]
  /\ Annotations._delete_internal 5 (_annotations hello) "n" 0 (-1)
      = Annotations._delete_internal 5 (_annotations hello) "n" 0 (5 + -1).
Proof.
  destruct (C3_negative_end_is_relative 5 (_annotations hello) "n" 0 (-1)
              [mkAnnotation "n" "v" 0 5]) as [H1 H2].
  - lia.
  - vm_compute. reflexivity.
  - split; [exact H1 | apply H2; lia].
Defined.

(** ** Dicts: lookups after updates *)

Section DictFacts.
Context {K V : Type} `{EqDecision K}.
Implicit Types (d : Dict.t K V) (k : K) (v : V).

Lemma get_set k k' v d :
  Dict.get k (Dict.set k' v d) = if decide (k' = k) then Some v else Dict.get k d.
Proof.
  induction d as [|[k0 v0] d IH]; cbn.
  - reflexivity.
  - destruct (decide (k0 = k')) as [->|Hne]; cbn.
    + destruct (decide (k' = k)); reflexivity.
    + rewrite IH. destruct (decide (k0 = k)) as [->|]; [|reflexivity].
      rewrite decide_False by congruence. reflexivity.
Qed.





End DictFacts.

(** ** Shifting *)








(** ** Range validation *)

Lemma normalize_eq (n start end_ : Z) :
  0 <= n ->
  BlipRefs.normalize n start end_
  = (relative n start,
     if (start <? 0) && (end_ =? 0) then n else relative n end_).
Proof.
  intros Hn. unfold BlipRefs.normalize, relative.
  destruct (Z.ltb_spec start 0); cbn [andb].
  - destruct (Z.eqb_spec end_ 0) as [->|].
    + replace (0 + n <? 0) with false by (symmetry; lia). reflexivity.
    + reflexivity.
  - reflexivity.
Qed.

Lemma check_range_spec (n start end_ : Z) :
  (BlipRefs.check_range n start end_ = None <-> in_range n start end_)
  /\ (BlipRefs.check_range n start end_ = Some empty_document_error
      <-> n = 0 /\ ~ in_range n start end_)
  /\ (BlipRefs.check_range n start end_ = Some position_error
      <-> n <> 0 /\ ~ in_range n start end_).
Proof.
  unfold BlipRefs.check_range, in_range, empty_document_error, position_error.
  destruct (Z.eqb_spec n 0) as [Hn|Hn].
  - rewrite decide_True by exact Hn.
    destruct (Z.eqb_spec start 0), (Z.eqb_spec end_ 0); cbn;
      split_and!; range_case.
  - rewrite decide_False by exact Hn.
    destruct (Z.ltb_spec start 0), (Z.ltb_spec end_ 1),
      (Z.geb_spec start n), (Z.gtb_spec end_ n); cbn;
      split_and!; range_case.
Qed.

(** A hit that passes the range checks does not end in one of the two
    out-of-range errors; one that fails them ends in the error of the
    failed check, whatever the operation. *)
Lemma execute_hit_range_error (how : BlipRefs.Mutation) (st : BlipRefs.Exec)
    (start end_ : Z) (err : PyError) :
  err = empty_document_error \/ err = position_error ->
  BlipRefs.execute_hit how st (start, end_) = inl err
  <-> BlipRefs.check_range (Blip.__len__ (BlipRefs.blip st))
        (BlipRefs.normalize (Blip.__len__ (BlipRefs.blip st)) start end_).1
        (BlipRefs.normalize (Blip.__len__ (BlipRefs.blip st)) start end_).2
      = Some err.
Proof.
  intros Herr. unfold BlipRefs.execute_hit. cbn [fst snd].
  destruct (BlipRefs.normalize _ start end_) as [s e]. cbn [fst snd].
  destruct (BlipRefs.check_range _ s e) as [err'|].
  - split; congruence.
  - split; [|discriminate]. intros H. exfalso.
    assert (Hpick : forall A (what : list A) i x,
              BlipRefs.pick what i = inl x -> x = IndexError "list index out of range").
    { intros A what i x. unfold BlipRefs.pick.
      destruct (what !! Z.to_nat i); congruence. }
    assert (Hno : err <> IndexError "list index out of range"
                  /\ err <> AttributeError "'NoneType' object has no attribute 'type'")
      by (destruct Herr as [-> | ->]; split; discriminate).
    destruct Hno as [Hno1 Hno2].
    assert (Hno3 : err <> UnicodeDecodeError)
      by (destruct Herr as [-> | ->]; discriminate).
    destruct how as [|what|what|what|what|what|what]; try discriminate H;
      destruct (BlipRefs.pick what (BlipRefs.next_index st)) as [x|[next i]] eqn:Ep;
      try (apply Hpick in Ep; congruence);
      try discriminate H.
    + destruct next as [t|e0|[t|]]; cbn in H; congruence.
    + destruct next as [t|e0|[t|]]; cbn in H; congruence.
    + destruct next as [t|e0|[t|]]; cbn in H; congruence.
    + destruct next. discriminate H.
    + destruct next as [n|[n|]]; cbn in H; congruence.
    + cbn in H. destruct (Dict.get s (_elements (BlipRefs.blip st)));
        [discriminate H | congruence].
Qed.

(** C7, as stated, fails.  On the three-character document [abc] the hit
    (-1, 0), which is what [blip.at(-1)] selects, is accepted: its end 0
    is not negative, yet it is turned into len(content) = 3 because the
    start was negative.  Under the rule of the claim the end stays 0 and
    the hit is out of range. *)
Lemma C7_end_zero_after_negative_start :
  ~ in_range (Blip.__len__ abc) (relative (Blip.__len__ abc) (-1))
             (relative (Blip.__len__ abc) 0)
  /\ BlipRefs.execute_hit BlipRefs.DELETE (BlipRefs.mkExec abc 0 []) (-1, 0)
     = inr (BlipRefs.mkExec
              (Blip.Make (list_ascii_of_string "ab") [] ∅) 0 []).
Proof.
  split.
  - vm_compute. intros [_ [H _]]. apply H. reflexivity.
  - vm_compute. reflexivity.
Qed.

(** C7, amended.  A hit (start, end) is first made absolute: a negative
    start or end has len(content) added, and an end equal to 0 that
    comes with a negative start is taken as len(content).  Then,
    whatever the operation, the hit ends in the empty-document error
    exactly when the document is empty and the offsets are not (0, 0),
    and in the position error exactly when the document is not empty and
    NOT (0 <= start and 1 <= end and start < len(content) and
    end <= len(content)). *)
Theorem C7_range_validation (how : BlipRefs.Mutation) (st : BlipRefs.Exec)
    (start end_ : Z) :
  let n := Blip.__len__ (BlipRefs.blip st) in
  let s := relative n start in
  let e := if (start <? 0) && (end_ =? 0) then n else relative n end_ in
  BlipRefs.normalize n start end_ = (s, e)
  /\ (BlipRefs.execute_hit how st (start, end_) = inl empty_document_error
      <-> n = 0 /\ ~ (s = 0 /\ e = 0))
  /\ (BlipRefs.execute_hit how st (start, end_) = inl position_error
      <-> n <> 0 /\ ~ (0 <= s /\ 1 <= e /\ s < n /\ e <= n)).
Proof.
  intros n s e.
  assert (Hn : 0 <= n) by (unfold n, Blip.__len__, len; lia).
  assert (Hnorm : BlipRefs.normalize n start end_ = (s, e))
    by (apply normalize_eq; exact Hn).
  split; [exact Hnorm|].
  destruct (check_range_spec n s e) as (_ & Hempty & Hpos).
  split.
  - rewrite execute_hit_range_error by (left; reflexivity).
    fold n. rewrite Hnorm. cbn [fst snd]. rewrite Hempty.
    unfold in_range. destruct (decide (n = 0)); [tauto | split; intros [? _]; lia].
  - rewrite execute_hit_range_error by (right; reflexivity).
    fold n. rewrite Hnorm. cbn [fst snd]. rewrite Hpos.
    unfold in_range. destruct (decide (n = 0)); [split; intros [? _]; lia | tauto].
Qed.

(** ** UPDATE_ELEMENT where there is no element *)

(** Whenever the hit is in range, a value is picked and no element is
    registered at the (absolute) start, the hit ends in the
    [AttributeError] of [el.type]: the [ValueError] guard tests the
    module [element], not [el], and never fires. *)
Lemma update_element_missing (st : BlipRefs.Exec)
    (what : list (Dict.t string string)) (start end_ s e : Z) :
  BlipRefs.normalize (Blip.__len__ (BlipRefs.blip st)) start end_ = (s, e) ->
  BlipRefs.check_range (Blip.__len__ (BlipRefs.blip st)) s e = None ->
  what !! Z.to_nat (BlipRefs.next_index st) <> None ->
  Dict.get s (_elements (BlipRefs.blip st)) = None ->
  BlipRefs.execute_hit (BlipRefs.UPDATE_ELEMENT what) st (start, end_)
    = inl (AttributeError "'NoneType' object has no attribute 'type'").
Proof.
  intros Hnorm Hcheck Hpick Hget. unfold BlipRefs.execute_hit. cbn [fst snd].
  rewrite Hnorm, Hcheck. unfold BlipRefs.pick.
  destruct (what !! Z.to_nat (BlipRefs.next_index st)); [|congruence].
  cbn. rewrite Hget. reflexivity.
Qed.

(** C4 (the code departs from the claim).  [abc] has no elements;
    [abc.range(0, 1).update_element({'url': 'x'})] stops with an
    [AttributeError], which is not a [LookupError] and is not the
    "No element found" error of the guard.  The document is as before. *)
Theorem C4_update_element_without_element :
  BlipRefs._execute 2 abc (BlipRefs.Range 0 1)
      (BlipRefs.UPDATE_ELEMENT [[("url"%string, "x"%string)]])
    = Some (inl (AttributeError "'NoneType' object has no attribute 'type'", abc))
  /\ is_LookupError (AttributeError "'NoneType' object has no attribute 'type'")
     = false.
Proof. split; vm_compute; reflexivity. Qed.

(** ** Text search *)

Lemma starts_with_prefix (sub s : text) :
  starts_with sub s = true <-> sub `prefix_of` s.
Proof.
  revert s. induction sub as [|c sub IH]; intros s; cbn.
  - split; [intros _; apply prefix_nil | reflexivity].
  - destruct s as [|d s].
    + split; [discriminate|]. intros H. apply prefix_nil_inv in H. discriminate H.
    + destruct (decide (c = d)) as [->|Hne].
      * rewrite IH. split; [apply prefix_cons | apply prefix_cons_inv_2].
      * split; [discriminate|]. intros H. apply prefix_cons_inv_1 in H. congruence.
Qed.

Lemma find_first_Some (sub s : text) (k : nat) :
  find_first sub s = Some k ->
  (k <= length s)%nat /\ sub `prefix_of` drop k s
  /\ forall j, (j < k)%nat -> ~ sub `prefix_of` drop j s.
Proof.
  revert k. induction s as [|d s IH]; intros k; cbn [find_first].
  - destruct (starts_with sub []) eqn:E; [|discriminate].
    intros [= <-]. apply starts_with_prefix in E.
    split; [reflexivity|]. split; [exact E|]. intros j Hj. lia.
  - destruct (starts_with sub (d :: s)) eqn:E.
    + intros [= <-]. apply starts_with_prefix in E.
      split; [cbn; lia|]. split; [exact E|]. intros j Hj. lia.
    + destruct (find_first sub s) as [k'|]; [|discriminate].
      cbn. intros [= <-]. destruct (IH k' eq_refl) as (Hle & Hocc & Hmin).
      split; [cbn; lia|]. split; [exact Hocc|].
      intros [|j] Hj; cbn.
      * rewrite <- starts_with_prefix. congruence.
      * apply Hmin. lia.
Qed.

Lemma find_first_None (sub s : text) :
  find_first sub s = None ->
  forall j, (j <= length s)%nat -> ~ sub `prefix_of` drop j s.
Proof.
  induction s as [|d s IH]; cbn [find_first].
  - destruct (starts_with sub []) eqn:E; [discriminate|].
    intros _ j Hj. cbn in Hj. replace j with 0%nat by lia.
    cbn. rewrite <- starts_with_prefix. congruence.
  - destruct (starts_with sub (d :: s)) eqn:E; [discriminate|].
    destruct (find_first sub s) as [k'|]; [discriminate|].
    intros _ [|j] Hj; cbn.
    + rewrite <- starts_with_prefix. congruence.
    + apply IH; [reflexivity | cbn in Hj; lia].
Qed.

Lemma drop_drop_Z (s : text) (pos : Z) (k : nat) :
  0 <= pos -> drop k (drop (Z.to_nat pos) s) = drop (Z.to_nat (pos + Z.of_nat k)) s.
Proof.
  intros Hpos. rewrite drop_drop. f_equal. lia.
Qed.

Lemma str_find_found (s sub : text) (pos i : Z) :
  0 <= pos -> str_find s sub pos = i -> i <> -1 ->
  pos <= i /\ occurs_at s sub i
  /\ forall k, pos <= k < i -> ~ occurs_at s sub k.
Proof.
  intros Hpos. unfold str_find.
  replace (pos <? 0) with false by (symmetry; lia).
  destruct (Z.gtb_spec pos (len s)) as [Hgt|Hle]; [congruence|].
  destruct (find_first sub (drop (Z.to_nat pos) s)) as [k|] eqn:E; [|congruence].
  intros <- _. apply find_first_Some in E as (Hk & Hocc & Hmin).
  rewrite length_drop in Hk. unfold len in *.
  assert (Hbound : 0 <= pos + Z.of_nat k <= Z.of_nat (length s))
    by (clear - Hpos Hle Hk; lia).
  split; [clear - Hpos; lia|]. split.
  - split; [exact Hbound|]. rewrite <- drop_drop_Z by exact Hpos. exact Hocc.
  - intros j Hj [_ Hj']. apply (Hmin (Z.to_nat (j - pos))); [clear - Hj; lia|].
    rewrite drop_drop_Z by exact Hpos.
    replace (pos + Z.of_nat (Z.to_nat (j - pos))) with j by (clear - Hj; lia).
    exact Hj'.
Qed.

Lemma str_find_none (s sub : text) (pos : Z) :
  0 <= pos -> str_find s sub pos = -1 ->
  forall k, pos <= k -> ~ occurs_at s sub k.
Proof.
  intros Hpos. unfold str_find.
  replace (pos <? 0) with false by (symmetry; lia).
  destruct (Z.gtb_spec pos (len s)) as [Hgt|Hle].
  - intros _ k Hk [Hk' _]. lia.
  - destruct (find_first sub (drop (Z.to_nat pos) s)) as [j|] eqn:E;
      [intros Hj; exfalso; clear - Hpos Hj; lia|].
    intros _ k Hk [Hk' Hocc].
    apply (find_first_None _ _ E (Z.to_nat (k - pos))).
    + rewrite length_drop. unfold len in *. clear - Hk Hk' Hpos. lia.
    + rewrite drop_drop_Z by exact Hpos.
      replace (pos + Z.of_nat (Z.to_nat (k - pos))) with k by (clear - Hk; lia).
      exact Hocc.
Qed.

(** An occurrence of a pattern lies within the text. *)
Lemma occurs_at_bound (s sub : text) (i : Z) :
  occurs_at s sub i -> i + len sub <= len s.
Proof.
  intros [Hi [post Hpost]]. apply (f_equal length) in Hpost.
  rewrite length_drop, length_app in Hpost. unfold len in *.
  clear - Hi Hpost. lia.
Qed.

(** One resumption of the search, for any pattern: the hit it yields is
    the first occurrence at or after the point it resumes from and spans
    the pattern, and the search will go on from the end of that hit; it
    stops only when the count has reached a positive [maxres] or no
    occurrence is left. *)
Lemma next_hit_first_occurrence (b : Blip) (what : text) (maxres : Z)
    (cur : BlipRefs.Cursor) :
  cursor_ok cur ->
  match BlipRefs.next_hit b (BlipRefs.All (Some what) maxres) cur with
  | Some ((i, j), cur') =>
      resume_pos what cur <= i /\ occurs_at (_content b) what i
      /\ (forall k, resume_pos what cur <= k < i -> ~ occurs_at (_content b) what k)
      /\ j = i + len what
      /\ resume_pos what cur' = j
      /\ cursor_ok cur'
  | None =>
      (exists idx count,
         cur = BlipRefs.Yielded idx count /\ count + 1 = maxres /\ 0 < maxres)
      \/ forall k, resume_pos what cur <= k -> ~ occurs_at (_content b) what k
  end.
Proof.
  intros Hok.
  assert (Hpos : 0 <= resume_pos what cur).
  { destruct cur as [|idx count]; cbn in *; [lia|]. unfold len. lia. }
  assert (Hstep : forall count', 0 <= count' ->
    match (let idx := str_find (_content b) what (resume_pos what cur) in
           if idx =? -1 then None
           else Some ((idx, idx + len what), BlipRefs.Yielded idx count')) with
    | Some ((i, j), cur') =>
        resume_pos what cur <= i /\ occurs_at (_content b) what i
        /\ (forall k, resume_pos what cur <= k < i -> ~ occurs_at (_content b) what k)
        /\ j = i + len what
        /\ resume_pos what cur' = j
        /\ cursor_ok cur'
    | None =>
        (exists idx count,
           cur = BlipRefs.Yielded idx count /\ count + 1 = maxres /\ 0 < maxres)
        \/ forall k, resume_pos what cur <= k -> ~ occurs_at (_content b) what k
    end).
  { intros count' Hcount'. cbv zeta.
    destruct (Z.eqb_spec (str_find (_content b) what (resume_pos what cur)) (-1))
      as [E|E].
    - right. apply str_find_none; assumption.
    - destruct (str_find_found (_content b) what (resume_pos what cur) _ Hpos eq_refl E)
        as (H1 & H2 & H3).
      split_and!; [exact H1 | exact H2 | exact H3 | reflexivity | reflexivity |].
      cbn. split; [lia | exact Hcount']. }
  destruct cur as [|idx count]; cbn [BlipRefs.next_hit].
  - apply (Hstep 0). lia.
  - destruct Hok as [Hidx Hcount].
    destruct (Z.eqb_spec (count + 1) maxres) as [Hmax|Hmax].
    + left. exists idx, count. split_and!; [reflexivity | exact Hmax | lia].
    + apply (Hstep (count + 1)). lia.
Qed.

(** The search resumed after a hit at [idx]: with fuel for every
    remaining position it stops, and what it yields is a scan from the
    end of that hit, ended by the count reaching [maxres] or by the lack
    of further occurrences. *)
Lemma find_from_yielded (b : Blip) (what : text) (maxres : Z) (fuel : nat) :
  what <> [] ->
  forall idx count,
    0 <= idx -> idx + len what <= len (_content b) -> 0 <= count ->
    (Z.to_nat (len (_content b) - (idx + len what)) < fuel)%nat ->
    exists hits,
      BlipRefs._find_from fuel b what maxres (BlipRefs.Yielded idx count) = Some hits
      /\ scan (_content b) what (idx + len what) hits
      /\ (count + 1 + len hits = maxres
          \/ exhausted (_content b) what (idx + len what) hits)
      /\ (count + 1 <= maxres -> count + 1 + len hits <= maxres).
Proof.
  intros Hne.
  assert (Hw : 1 <= len what)
    by (destruct what; [congruence | unfold len; cbn; lia]).
  induction fuel as [|fuel IH]; intros idx count Hidx Hend Hcount Hfuel; [lia|].
  cbn [BlipRefs._find_from BlipRefs.next_hit].
  destruct (Z.eqb_spec (count + 1) maxres) as [Hmax|Hmax].
  { exists []. change (len (@nil (Z * Z))) with 0.
    split_and!; [reflexivity | exact I | left; lia | lia]. }
  pose proof (str_find_found (_content b) what (idx + len what)) as Hfound.
  pose proof (str_find_none (_content b) what (idx + len what)) as Hnone.
  destruct (Z.eqb_spec (str_find (_content b) what (idx + len what)) (-1)) as [E|E].
  { exists []. change (len (@nil (Z * Z))) with 0.
    split_and!; [reflexivity | exact I | right | lia].
    intros k Hk. apply Hnone; [lia | exact E | exact Hk]. }
  set (idx' := str_find (_content b) what (idx + len what)) in *.
  destruct (Hfound idx') as (Hpos & Hocc & Hmin); [lia | reflexivity | exact E |].
  pose proof (occurs_at_bound _ _ _ Hocc) as Hb.
  destruct (IH idx' (count + 1)) as (hits & Hrun & Hscan & Hstop & Hcap);
    [lia | exact Hb | lia | lia |].
  exists ((idx', idx' + len what) :: hits). rewrite Hrun.
  assert (Hlen : len ((idx', idx' + len what) :: hits) = 1 + len hits)
    by (unfold len; cbn [length]; lia).
  split_and!.
  - reflexivity.
  - cbn [scan]. split_and!; [exact Hpos | exact Hocc | exact Hmin | reflexivity | exact Hscan].
  - destruct Hstop as [Hstop|Hstop]; [left; lia | right; exact Hstop].
  - intros Hle. rewrite Hlen. lia.
Qed.

(** C8.  Every resumption of the text search of [_find] yields the
    first occurrence at or after the end of the previous hit (the start
    of the content for the first one), spanning the pattern, so that
    hits come left to right and do not overlap; it stops only when the
    count has reached max_results, which takes max_results > 0, or when
    no occurrence is left.  For a non-empty
    pattern the search ends (fuel for every position of the content is
    enough) and the hits form such a scan: with max_results <= 0 it goes
    on until no occurrence is left, with max_results > 0 it yields at
    most that many hits and stops earlier only when no occurrence is
    left.  In particular "a" in "banana" with max_results = -1 yields
    [(1,2),(3,4),(5,6)]. *)
Theorem C8_text_search :
  (forall (b : Blip) (what : text) (maxres : Z) (cur : BlipRefs.Cursor),
     cursor_ok cur ->
     match BlipRefs.next_hit b (BlipRefs.All (Some what) maxres) cur with
     | Some ((i, j), cur') =>
         resume_pos what cur <= i /\ occurs_at (_content b) what i
         /\ (forall k, resume_pos what cur <= k < i -> ~ occurs_at (_content b) what k)
         /\ j = i + len what
         /\ resume_pos what cur' = j
         /\ cursor_ok cur'
     | None =>
         (exists idx count,
            cur = BlipRefs.Yielded idx count /\ count + 1 = maxres /\ 0 < maxres)
         \/ forall k, resume_pos what cur <= k -> ~ occurs_at (_content b) what k
     end)
  /\ (forall (b : Blip) (what : text) (maxres : Z),
     what <> [] ->
     exists hits,
       BlipRefs._find (S (length (_content b))) b what maxres = Some hits
       /\ scan (_content b) what 0 hits
       /\ (maxres <= 0 -> exhausted (_content b) what 0 hits)
       /\ (0 < maxres ->
           len hits <= maxres
           /\ (len hits < maxres -> exhausted (_content b) what 0 hits)))
  /\ BlipRefs._find 7 banana (list_ascii_of_string "a") (-1)
     = Some [(1, 2); (3, 4); (5, 6)].
Proof.
  split; [exact next_hit_first_occurrence|].
  split; [|vm_compute; reflexivity].
  intros b what maxres Hne.
  assert (Hw : 1 <= len what)
    by (destruct what; [congruence | unfold len; cbn; lia]).
  unfold BlipRefs._find. cbn [BlipRefs._find_from BlipRefs.next_hit].
  pose proof (str_find_found (_content b) what 0) as Hfound.
  pose proof (str_find_none (_content b) what 0) as Hnone.
  destruct (Z.eqb_spec (str_find (_content b) what 0) (-1)) as [E|E].
  { exists []. change (len (@nil (Z * Z))) with 0.
    assert (Hex : exhausted (_content b) what 0 []).
    { intros k Hk. apply Hnone; [lia | exact E | exact Hk]. }
    split_and!; [reflexivity | exact I | intros _; exact Hex |].
    intros Hpos. split; [lia | intros _; exact Hex]. }
  set (idx := str_find (_content b) what 0) in *.
  destruct (Hfound idx) as (Hpos & Hocc & Hmin); [lia | reflexivity | exact E |].
  pose proof (occurs_at_bound _ _ _ Hocc) as Hb.
  destruct (find_from_yielded b what maxres (length (_content b)) Hne idx 0)
    as (hits & Hrun & Hscan & Hstop & Hcap);
    [lia | exact Hb | lia | unfold len in *; lia |].
  exists ((idx, idx + len what) :: hits). rewrite Hrun.
  assert (Hlen : len ((idx, idx + len what) :: hits) = 1 + len hits)
    by (unfold len; cbn [length]; lia).
  assert (Hge : 0 <= len hits) by (unfold len; lia).
  split_and!.
  - reflexivity.
  - cbn [scan]. split_and!; [exact Hpos | exact Hocc | exact Hmin | reflexivity | exact Hscan].
  - intros Hle. destruct Hstop as [Hstop|Hstop]; [lia | exact Hstop].
  - intros Hlt. rewrite Hlen. split; [lia|].
    intros Hless. destruct Hstop as [Hstop|Hstop]; [lia | exact Hstop].
Qed.

Lemma C8_text_search_witness :
  exists hits,
    BlipRefs._find (S (length (_content banana))) banana
      (list_ascii_of_string "ana") 0 = Some hits
    /\ scan (_content banana) (list_ascii_of_string "ana") 0 hits
    /\ (0 <= 0 -> exhausted (_content banana) (list_ascii_of_string "ana") 0 hits)
    /\ (0 < 0 ->
        len hits <= 0
        /\ (len hits < 0 ->
            exhausted (_content banana) (list_ascii_of_string "ana") 0 hits)).
Proof.
  apply (proj1 (proj2 C8_text_search) banana (list_ascii_of_string "ana") 0).
  discriminate.
Defined.

(** * Further properties of the code *)

(** ** The annotation store *)

Lemma add_loop_Forall (P : Annotation -> Prop) (value : string)
    (l : list Annotation) :
  (forall e s x, P e -> P (mkAnnotation (_name e) (_value e) s x)) ->
  forall start end_ acc,
    Forall P acc -> Forall P l ->
    Forall P (Annotations._add_loop value start end_ acc l).2.
Proof.
  intros Hpiece. induction l as [|e l IH]; intros start end_ acc Hacc Hl.
  - exact Hacc.
  - apply Forall_cons in Hl as [He Hl]. cbn [Annotations._add_loop].
    destruct ((start >? _end e) || (end_ <? _start e)).
    { apply IH; [|exact Hl]. apply Forall_app. split; [exact Hacc|].
      apply Forall_singleton. exact He. }
    destruct (decide (_value e = value)); [apply IH; assumption|].
    apply IH; [|exact Hl].
    destruct (_start e <? start), (_end e >? end_);
      repeat (apply Forall_app; split); try exact Hacc;
      apply Forall_singleton; apply Hpiece; exact He.
Qed.

Lemma delete_loop_Forall (P : Annotation -> Prop) (name : string)
    (start end_ : Z) (l : list Annotation) :
  (forall e s x, P e -> P (mkAnnotation name (_value e) s x)) ->
  forall acc,
    Forall P acc -> Forall P l ->
    Forall P (Annotations._delete_loop name start end_ acc l).
Proof.
  intros Hpiece. induction l as [|a l IH]; intros acc Hacc Hl.
  - exact Hacc.
  - apply Forall_cons in Hl as [Ha Hl]. cbn [Annotations._delete_loop].
    destruct ((start >? _end a) || (end_ <? _start a)).
    { apply IH; [|exact Hl]. apply Forall_app. split; [exact Hacc|].
      apply Forall_singleton. exact Ha. }
    destruct ((start <? _start a) && (end_ >? _end a)); [apply IH; assumption|].
    apply IH; [|exact Hl].
    destruct (_start a <? start), (_end a >? end_);
      repeat (apply Forall_app; split); try exact Hacc;
      apply Forall_singleton; apply Hpiece; exact Ha.
Qed.

(** X1.  Adding and removing under one name leave the entries of every
    other name as they are. *)
Theorem X1_other_names_untouched (blip_len : Z) (st : Annotations.store)
    (name other value : string) (start end_ : Z) :
  other <> name ->
  Annotations._add_internal st name value start end_ !! other = st !! other
  /\ Annotations._delete_internal blip_len st name start end_ !! other
     = st !! other.
Proof.
  intros Hne. split.
  - unfold Annotations._add_internal. destruct (st !! name) as [l|].
    + destruct (Annotations._add_loop value start end_ [] l) as [[s' e'] nl].
      apply lookup_insert_ne. congruence.
    + apply lookup_insert_ne. congruence.
  - unfold Annotations._delete_internal. destruct (st !! name) as [l|]; [|reflexivity].
    destruct (Annotations._delete_loop name start _ [] l).
    + apply lookup_delete_ne. congruence.
    + apply lookup_insert_ne. congruence.
Qed.

Lemma X1_other_names_untouched_witness :
  Annotations._add_internal one_a "n" "b" 4 6 !! "m"%string = one_a !! "m"%string
  /\ Annotations._delete_internal 10 one_a "n" 4 6 !! "m"%string
     = one_a !! "m"%string.
Proof.
  apply (X1_other_names_untouched 10 one_a "n" "m" "b" 4 6). discriminate.
Defined.

Lemma add_keeps_names (st : Annotations.store) (name value : string)
    (start end_ : Z) :
  names_consistent st ->
  names_consistent (Annotations._add_internal st name value start end_).
Proof.
  intros Hst. unfold Annotations._add_internal.
  destruct (st !! name) as [l|] eqn:El.
  - pose proof (add_loop_Forall (fun a => _name a = name) value l
                  (fun e s x H => H) start end_ [] (Forall_nil_2 _) (Hst _ _ El))
      as Hloop.
    destruct (Annotations._add_loop value start end_ [] l) as [[s' e'] nl].
    apply map_Forall_insert_2; [|exact Hst].
    apply Forall_app. split; [exact Hloop|].
    apply Forall_singleton. reflexivity.
  - apply map_Forall_insert_2; [|exact Hst].
    apply Forall_singleton. reflexivity.
Qed.

Lemma delete_keeps_names (blip_len : Z) (st : Annotations.store)
    (name : string) (start end_ : Z) :
  names_consistent st ->
  names_consistent (Annotations._delete_internal blip_len st name start end_).
Proof.
  intros Hst. unfold Annotations._delete_internal.
  destruct (st !! name) as [l|] eqn:El; [|exact Hst].
  pose proof (delete_loop_Forall (fun a => _name a = name) name start
                (if end_ <? 0 then blip_len + end_ else end_) l
                (fun e s x _ => eq_refl) [] (Forall_nil_2 _) (Hst _ _ El))
    as Hloop.
  destruct (Annotations._delete_loop name start _ [] l) as [|a nl].
  - apply map_Forall_delete. exact Hst.
  - apply map_Forall_insert_2; [exact Hloop | exact Hst].
Qed.

(** X2.  A store in which every annotation is filed under its own name
    stays so under adding and removing. *)
Theorem X2_names_stay_consistent (blip_len : Z) (st : Annotations.store)
    (name value : string) (start end_ : Z) :
  names_consistent st ->
  names_consistent (Annotations._add_internal st name value start end_)
  /\ names_consistent (Annotations._delete_internal blip_len st name start end_).
Proof.
  intros Hst. split; [apply add_keeps_names | apply delete_keeps_names]; exact Hst.
Qed.

Lemma X2_names_stay_consistent_witness :
  names_consistent (Annotations._add_internal one_a "n" "b" 4 6)
  /\ names_consistent (Annotations._delete_internal 10 one_a "n" 4 6).
Proof.
  apply (X2_names_stay_consistent 10 one_a "n" "b" 4 6).
  intros k l Hk. unfold one_a in Hk.
  apply lookup_singleton_Some in Hk as [<- <-].
  apply Forall_singleton. reflexivity.
Defined.

(** The range only grows while the loop of [_add_internal] merges. *)
Lemma add_loop_widens (value : string) (l : list Annotation) :
  forall start end_ acc,
    (Annotations._add_loop value start end_ acc l).1.1 <= start
    /\ end_ <= (Annotations._add_loop value start end_ acc l).1.2.
Proof.
  induction l as [|e l IH]; intros start end_ acc; cbn [Annotations._add_loop].
  - cbn. lia.
  - destruct ((start >? _end e) || (end_ <? _start e)); [apply IH|].
    destruct (decide (_value e = value)); [|apply IH].
    destruct (IH (Z.min (_start e) start) (Z.max (_end e) end_) acc) as [H1 H2].
    split; lia.
Qed.

(** X3.  After an add the entry of the name ends with an annotation of
    the given name and value whose range includes the requested one: the
    start has not grown and the end has not shrunk. *)
Theorem X3_add_stores_the_range (st : Annotations.store) (name value : string)
    (start end_ : Z) :
  exists pieces start' end',
    Annotations._add_internal st name value start end_ !! name
      = Some (pieces ++ [mkAnnotation name value start' end'])
    /\ start' <= start /\ end_ <= end'.
Proof.
  unfold Annotations._add_internal. destruct (st !! name) as [l|].
  - pose proof (add_loop_widens value l start end_ []) as Hw.
    destruct (Annotations._add_loop value start end_ [] l) as [[s' e'] nl].
    exists nl, s', e'. split; [apply lookup_insert_eq | exact Hw].
  - exists [], start, end_. split; [apply lookup_insert_eq | lia].
Qed.

Lemma add_loop_apart (value : string) (start end_ : Z) (l : list Annotation) :
  Forall (apart start end_) l ->
  forall acc, Annotations._add_loop value start end_ acc l = (start, end_, acc ++ l).
Proof.
  induction 1 as [|e l [He|He] _ IH]; intros acc; cbn [Annotations._add_loop].
  - rewrite app_nil_r. reflexivity.
  - replace (start >? _end e) with true by (symmetry; lia). cbn [orb].
    rewrite IH, <- app_assoc. reflexivity.
  - replace (end_ <? _start e) with true by (symmetry; lia). rewrite orb_true_r.
    rewrite IH, <- app_assoc. reflexivity.
Qed.

Lemma delete_loop_apart (name : string) (start end_ : Z) (l : list Annotation) :
  Forall (apart start end_) l ->
  forall acc, Annotations._delete_loop name start end_ acc l = acc ++ l.
Proof.
  induction 1 as [|a l [Ha|Ha] _ IH]; intros acc; cbn [Annotations._delete_loop].
  - rewrite app_nil_r. reflexivity.
  - replace (start >? _end a) with true by (symmetry; lia). cbn [orb].
    rewrite IH, <- app_assoc. reflexivity.
  - replace (end_ <? _start a) with true by (symmetry; lia). rewrite orb_true_r.
    rewrite IH, <- app_assoc. reflexivity.
Qed.

(** X4.  When no annotation of the name meets or touches the new range,
    an add keeps them all, in their order, and puts the new annotation
    after them; a remove (with an end that is not negative) leaves the
    store as it is. *)
Theorem X4_apart_ranges_are_kept (blip_len : Z) (st : Annotations.store)
    (name value : string) (start end_ : Z) (l : list Annotation) :
  st !! name = Some l ->
  l <> [] ->
  0 <= end_ ->
  Forall (apart start end_) l ->
  Annotations._add_internal st name value start end_
    = <[name := l ++ [mkAnnotation name value start end_]]> st
  /\ Annotations._delete_internal blip_len st name start end_ = st.
Proof.
  intros Hst Hl Hend Hapart. split.
  - unfold Annotations._add_internal. rewrite Hst.
    rewrite (add_loop_apart _ _ _ _ Hapart). reflexivity.
  - unfold Annotations._delete_internal. rewrite Hst.
    replace (end_ <? 0) with false by (symmetry; lia).
    rewrite (delete_loop_apart _ _ _ _ Hapart). cbn [app].
    destruct l; [congruence|]. apply insert_id. exact Hst.
Qed.

Lemma X4_apart_ranges_are_kept_witness :
  Annotations._add_internal one_a "n" "b" 12 15
    = <["n"%string := [mkAnnotation "n" "a" 0 10] ++ [mkAnnotation "n" "b" 12 15]]> one_a
  /\ Annotations._delete_internal 20 one_a "n" 12 15 = one_a.
Proof.
  apply (X4_apart_ranges_are_kept 20 one_a "n" "b" 12 15 [mkAnnotation "n" "a" 0 10]).
  - apply lookup_singleton_eq.
  - discriminate.
  - lia.
  - apply Forall_singleton. left. cbn. lia.
Defined.

Lemma delete_loop_within (name : string) (start end_ : Z) (l : list Annotation) :
  Forall (within start end_) l ->
  forall acc, Annotations._delete_loop name start end_ acc l = acc.
Proof.
  induction 1 as [|a l (H1 & H2 & H3) _ IH]; intros acc;
    cbn [Annotations._delete_loop]; [reflexivity|].
  replace (start >? _end a) with false by (symmetry; lia).
  replace (end_ <? _start a) with false by (symmetry; lia). cbn [orb].
  replace (_start a <? start) with false by (symmetry; lia).
  replace (_end a >? end_) with false by (symmetry; lia).
  destruct ((start <? _start a) && (end_ >? _end a)); apply IH.
Qed.

Lemma delete_internal_within (blip_len : Z) (st : Annotations.store)
    (name : string) (start end_ : Z) (l : list Annotation) :
  st !! name = Some l ->
  0 <= end_ ->
  Forall (within start end_) l ->
  Annotations._delete_internal blip_len st name start end_ = delete name st.
Proof.
  intros Hst Hend Hin. unfold Annotations._delete_internal. rewrite Hst.
  replace (end_ <? 0) with false by (symmetry; lia).
  rewrite (delete_loop_within _ _ _ _ Hin). reflexivity.
Qed.

(** X5.  A remove whose range (with an end that is not negative)
    includes every annotation of the name, each with its bounds in
    order, drops them all and takes the name out of the store, also
    when an annotation fills the range exactly. *)
Theorem X5_remove_all_deletes_the_name (blip_len : Z) (st : Annotations.store)
    (name : string) (start end_ : Z) (l : list Annotation) :
  st !! name = Some l ->
  0 <= end_ ->
  Forall (within start end_) l ->
  Annotations._delete_internal blip_len st name start end_ = delete name st
  /\ Annotations.__contains__
       (Annotations._delete_internal blip_len st name start end_) name = false.
Proof.
  intros Hst Hend Hin.
  rewrite (delete_internal_within _ _ _ _ _ _ Hst Hend Hin).
  split; [reflexivity|]. unfold Annotations.__contains__.
  rewrite lookup_delete_eq. reflexivity.
Qed.

Lemma X5_remove_all_deletes_the_name_witness :
  Annotations._delete_internal 10 one_a "n" 0 10 = delete "n"%string one_a
  /\ Annotations.__contains__ (Annotations._delete_internal 10 one_a "n" 0 10) "n"
     = false.
Proof.
  apply (X5_remove_all_deletes_the_name 10 one_a "n" 0 10 [mkAnnotation "n" "a" 0 10]).
  - apply lookup_singleton_eq.
  - lia.
  - apply Forall_singleton. unfold within. cbn. lia.
Defined.

(** X6.  After an add the name is in the store, and [len] of the store,
    which counts names, has grown by one when the name was new and has
    not changed when it was there. *)
Theorem X6_add_contains_and_len (st : Annotations.store) (name value : string)
    (start end_ : Z) :
  Annotations.__contains__
    (Annotations._add_internal st name value start end_) name = true
  /\ Annotations.__len__ (Annotations._add_internal st name value start end_)
     = if Annotations.__contains__ st name
       then Annotations.__len__ st
       else Annotations.__len__ st + 1.
Proof.
  unfold Annotations.__contains__, Annotations.__len__, Annotations._add_internal.
  destruct (st !! name) as [l|] eqn:El.
  - destruct (Annotations._add_loop value start end_ [] l) as [[s' e'] nl].
    rewrite lookup_insert_eq. split; [reflexivity|].
    rewrite map_size_insert_Some by eauto. reflexivity.
  - rewrite lookup_insert_eq. split; [reflexivity|].
    rewrite map_size_insert_None by exact El. lia.
Qed.

(** X7.  Annotating a range under a name the store does not hold and
    then clearing the same range (bounds in order, end not negative)
    gives back the store. *)
Theorem X7_add_then_remove_restores (blip_len : Z) (st : Annotations.store)
    (name value : string) (start end_ : Z) :
  st !! name = None ->
  start <= end_ -> 0 <= end_ ->
  Annotations._delete_internal blip_len
    (Annotations._add_internal st name value start end_) name start end_ = st.
Proof.
  intros Hst Hle Hend.
  unfold Annotations._add_internal. rewrite Hst.
  rewrite (delete_internal_within blip_len _ name start end_
             [mkAnnotation name value start end_]).
  - rewrite delete_insert_eq. apply delete_id. exact Hst.
  - apply lookup_insert_eq.
  - exact Hend.
  - apply Forall_singleton. unfold within. cbn. lia.
Qed.

Lemma X7_add_then_remove_restores_witness :
  Annotations._delete_internal 10
    (Annotations._add_internal one_a "m" "x" 2 5) "m" 2 5 = one_a.
Proof.
  apply (X7_add_then_remove_restores 10 one_a "m" "x" 2 5).
  - vm_compute. reflexivity.
  - lia.
  - lia.
Defined.

(** ** Shifting *)

Lemma shift_well_formed (where_ inc : Z) (a : Annotation) :
  0 <= inc ->
  well_formed (Annotation._shift where_ inc a) = well_formed a.
Proof.
  intros Hinc. unfold well_formed, Annotation._shift. cbn [_start _end].
  destruct (Z.gtb_spec (_start a) where_), (Z.gtb_spec (_end a) where_);
    repeat match goal with
           | |- context [?x <=? ?y] => destruct (Z.leb_spec x y)
           end;
    try reflexivity; lia.
Qed.

Lemma shift_overlaps (where_ inc : Z) (a b : Annotation) :
  0 <= inc ->
  overlaps (Annotation._shift where_ inc a) (Annotation._shift where_ inc b)
  = overlaps a b.
Proof.
  intros Hinc. unfold overlaps, Annotation._shift. cbn [_start _end].
  destruct (Z.gtb_spec (_start a) where_), (Z.gtb_spec (_end a) where_),
    (Z.gtb_spec (_start b) where_), (Z.gtb_spec (_end b) where_);
    repeat match goal with
           | |- context [?x <? ?y] => destruct (Z.ltb_spec x y)
           end;
    try reflexivity; lia.
Qed.

Lemma shift_list_inv (where_ inc : Z) (l : list Annotation) :
  0 <= inc ->
  list_inv (map (Annotation._shift where_ inc) l) = list_inv l.
Proof.
  intros Hinc. unfold list_inv. f_equal.
  - induction l as [|a l IH]; [reflexivity|]. cbn [map forallb].
    rewrite IH, shift_well_formed by exact Hinc. reflexivity.
  - induction l as [|a l IH]; [reflexivity|]. cbn [map pairwise_disjoint].
    rewrite IH. f_equal.
    clear IH. induction l as [|b l IH]; [reflexivity|]. cbn [map forallb].
    rewrite IH, shift_overlaps by exact Hinc. reflexivity.
Qed.

(** X8.  A shift by an amount that is not negative (the shift of an
    insertion) keeps the invariant of the store: bounds stay in order
    and annotations of one name stay disjoint. *)
Theorem X8_shift_up_keeps_invariant (where_ inc : Z) (st : Annotations.store) :
  0 <= inc ->
  store_inv st ->
  store_inv (Annotations._shift where_ inc st).
Proof.
  intros Hinc Hst name l Hl. unfold Annotations._shift in Hl.
  rewrite lookup_fmap in Hl.
  destruct (st !! name) as [l0|] eqn:E; [|discriminate Hl].
  injection Hl as <-. rewrite shift_list_inv by exact Hinc.
  exact (Hst _ _ E).
Qed.

Lemma X8_shift_up_keeps_invariant_witness :
  store_inv (Annotations._shift 4 3 one_a).
Proof.
  apply (X8_shift_up_keeps_invariant 4 3 one_a).
  - lia.
  - intros k l Hk. unfold one_a in Hk.
    apply lookup_singleton_Some in Hk as [_ <-]. reflexivity.
Defined.

Lemma set_fresh {K V : Type} `{EqDecision K} (k : K) (v : V) (d : Dict.t K V) :
  k ∉ Dict.keys d -> Dict.set k v d = d ++ [(k, v)].
Proof.
  unfold Dict.keys. induction d as [|[k0 v0] d IH]; cbn; intros Hk.
  - reflexivity.
  - apply not_elem_of_cons in Hk as [Hne Hk].
    rewrite decide_False by congruence. rewrite IH by exact Hk. reflexivity.
Qed.

(** Registering entries with distinct new keys one by one lists them in
    their order. *)
Lemma foldl_set_distinct {K V : Type} `{EqDecision K} (l acc : Dict.t K V) :
  NoDup (Dict.keys (acc ++ l)) ->
  foldl (fun d '(k, v) => Dict.set k v d) acc l = acc ++ l.
Proof.
  revert acc. induction l as [|[k v] l IH]; intros acc Hnd; cbn [foldl].
  - rewrite app_nil_r. reflexivity.
  - assert (Hk : k ∉ Dict.keys acc).
    { unfold Dict.keys in *. rewrite fmap_app in Hnd.
      apply NoDup_app in Hnd as (_ & Hdisj & _).
      intros Hin. apply (Hdisj _ Hin). cbn. left. }
    rewrite set_fresh by exact Hk.
    rewrite IH; rewrite <- app_assoc; [reflexivity | exact Hnd].
Qed.

Lemma shift_elements_rekeyed (where_ inc : Z) (elements : Dict.t Z Element) :
  Blip._shift_elements where_ inc elements
  = foldl (fun d '(k, v) => Dict.set k v d) [] (rekeyed where_ inc elements).
Proof.
  unfold Blip._shift_elements, rekeyed. generalize (@nil (Z * Element)).
  induction elements as [|[k e] l IH]; intros acc; [reflexivity|].
  cbn [foldl map]. rewrite IH. reflexivity.
Qed.

Lemma new_index_back (where_ inc idx : Z) :
  0 <= inc -> new_index where_ (- inc) (new_index where_ inc idx) = idx.
Proof.
  intros Hinc. unfold new_index.
  destruct (Z.geb_spec idx where_).
  - replace (idx + inc >=? where_) with true by (symmetry; lia). lia.
  - replace (idx >=? where_) with false by (symmetry; lia). reflexivity.
Qed.

Lemma keys_rekeyed (where_ inc : Z) (elements : Dict.t Z Element) :
  Dict.keys (rekeyed where_ inc elements)
  = map (new_index where_ inc) (Dict.keys elements).
Proof.
  unfold Dict.keys, rekeyed. induction elements as [|[k e] l IH]; [reflexivity|].
  cbn. f_equal. exact IH.
Qed.

(** When no two offsets are sent to one new offset, the rebuilt table
    is the old one with every offset replaced by the new one, in the old
    order. *)
Lemma shift_elements_distinct (where_ inc : Z) (elements : Dict.t Z Element) :
  NoDup (map (new_index where_ inc) (Dict.keys elements)) ->
  Blip._shift_elements where_ inc elements = rekeyed where_ inc elements.
Proof.
  intros Hnd. rewrite shift_elements_rekeyed.
  rewrite foldl_set_distinct; [reflexivity|].
  cbn [app]. rewrite keys_rekeyed. exact Hnd.
Qed.

Lemma new_index_up_inj (where_ inc i j : Z) :
  0 <= inc -> new_index where_ inc i = new_index where_ inc j -> i = j.
Proof.
  unfold new_index. intros Hinc.
  destruct (Z.geb_spec i where_), (Z.geb_spec j where_); lia.
Qed.

Lemma shift_elements_up (where_ inc : Z) (elements : Dict.t Z Element) :
  0 <= inc -> NoDup (Dict.keys elements) ->
  Blip._shift_elements where_ inc elements = rekeyed where_ inc elements.
Proof.
  intros Hinc Hnd. apply shift_elements_distinct.
  apply NoDup_fmap_2_strong; [|exact Hnd].
  intros i j _ _. apply new_index_up_inj. exact Hinc.
Qed.

Lemma annotation_shift_back (where_ inc : Z) (a : Annotation) :
  0 <= inc ->
  Annotation._shift where_ (- inc) (Annotation._shift where_ inc a) = a.
Proof.
  intros Hinc. destruct a as [n v s e]. unfold Annotation._shift.
  cbn [_name _value _start _end].
  destruct (Z.gtb_spec s where_), (Z.gtb_spec e where_);
    repeat match goal with
           | |- context [?x >? ?y] => destruct (Z.gtb_spec x y)
           end;
    f_equal; lia.
Qed.

Lemma get_rekeyed_none (where_ inc k' : Z) (elements : Dict.t Z Element) :
  (forall k, k ∈ Dict.keys elements -> new_index where_ inc k <> k') ->
  Dict.get k' (rekeyed where_ inc elements) = None.
Proof.
  unfold Dict.keys, rekeyed. induction elements as [|[k e] l IH]; intros H.
  - reflexivity.
  - cbn. rewrite decide_False by (apply H; cbn; left).
    apply IH. intros k0 Hk0. apply H. cbn. right. exact Hk0.
Qed.

Lemma get_rekeyed_at (where_ inc k0 : Z) (elements : Dict.t Z Element) :
  (forall k, k ∈ Dict.keys elements ->
             new_index where_ inc k = new_index where_ inc k0 -> k = k0) ->
  Dict.get (new_index where_ inc k0) (rekeyed where_ inc elements)
  = Dict.get k0 elements.
Proof.
  unfold Dict.keys, rekeyed. induction elements as [|[k e] l IH]; intros H.
  - reflexivity.
  - cbn. destruct (decide (k = k0)) as [->|Hne].
    + rewrite decide_True by reflexivity. reflexivity.
    + rewrite decide_False.
      * apply IH. intros k1 Hk1. apply H. cbn. right. exact Hk1.
      * intros Heq. apply Hne. apply H; [cbn; left | exact Heq].
Qed.

(** Where the entries are after a shift up by [inc] at [p]: below [p] as
    before, none in the gap, from [p + inc] on those that were [inc]
    lower. *)
Lemma shift_elements_up_get (p inc k : Z) (elements : Dict.t Z Element) :
  0 <= inc -> NoDup (Dict.keys elements) ->
  Dict.get k (Blip._shift_elements p inc elements)
  = if k <? p then Dict.get k elements
    else if k <? p + inc then None
    else Dict.get (k - inc) elements.
Proof.
  intros Hinc Hnd. rewrite shift_elements_up by assumption.
  destruct (Z.ltb_spec k p) as [Hk|Hk].
  - replace k with (new_index p inc k) at 1
      by (unfold new_index; replace (k >=? p) with false by (symmetry; lia);
          reflexivity).
    apply get_rekeyed_at. intros k1 _. apply new_index_up_inj. exact Hinc.
  - destruct (Z.ltb_spec k (p + inc)) as [Hk'|Hk'].
    + apply get_rekeyed_none. intros k1 _. unfold new_index.
      destruct (Z.geb_spec k1 p); lia.
    + replace k with (new_index p inc (k - inc)) at 1
        by (unfold new_index; replace (k - inc >=? p) with true by (symmetry; lia);
            lia).
      apply get_rekeyed_at. intros k1 _. apply new_index_up_inj. exact Hinc.
Qed.

Lemma keys_get {K V : Type} `{EqDecision K} (k : K) (d : Dict.t K V) :
  k ∈ Dict.keys d <-> exists v, Dict.get k d = Some v.
Proof.
  unfold Dict.keys. induction d as [|[k0 v0] d IH]; cbn.
  - split; [intros H; apply elem_of_nil in H as [] | intros [v H]; discriminate H].
  - destruct (decide (k0 = k)) as [->|Hne].
    + split; [eauto | intros _; left].
    + rewrite elem_of_cons, IH. split; [intros [H|H]; [congruence | exact H] | auto].
Qed.

(** Where the entries are after a shift down by [inc] at [p], when no
    entry is registered in the gap the shift closes. *)
Lemma shift_elements_down_get (p inc k : Z) (elements : Dict.t Z Element) :
  0 <= inc -> NoDup (Dict.keys elements) ->
  (forall x, x ∈ Dict.keys elements -> x < p \/ p + inc <= x) ->
  Dict.get k (Blip._shift_elements p (- inc) elements)
  = if k <? p then Dict.get k elements else Dict.get (k + inc) elements.
Proof.
  intros Hinc Hnd Hgap.
  assert (Hinj : forall x y, x ∈ Dict.keys elements -> y ∈ Dict.keys elements ->
            new_index p (- inc) x = new_index p (- inc) y -> x = y).
  { intros x y Hx Hy. apply Hgap in Hx. apply Hgap in Hy. unfold new_index.
    destruct (Z.geb_spec x p), (Z.geb_spec y p); lia. }
  rewrite shift_elements_distinct
    by (apply NoDup_fmap_2_strong; [exact Hinj | exact Hnd]).
  destruct (Z.ltb_spec k p) as [Hk|Hk].
  - replace k with (new_index p (- inc) k) at 1
      by (unfold new_index; replace (k >=? p) with false by (symmetry; lia);
          reflexivity).
    apply get_rekeyed_at. intros x Hx Heq. apply Hgap in Hx. revert Heq.
    unfold new_index. destruct (Z.geb_spec x p), (Z.geb_spec k p); lia.
  - replace k with (new_index p (- inc) (k + inc)) at 1
      by (unfold new_index; replace (k + inc >=? p) with true by (symmetry; lia);
          lia).
    apply get_rekeyed_at. intros x Hx Heq. apply Hgap in Hx. revert Heq.
    unfold new_index. destruct (Z.geb_spec x p), (Z.geb_spec (k + inc) p); lia.
Qed.

(** X9.  A shift by an amount that is not negative followed by the
    opposite shift at the same point gives back the elements and the
    annotations: every offset holds the element it held, and every
    annotation has its old bounds.  This does not depend on the order in
    which the table is iterated: [mid] is the blip after the first
    shift, with its entries in any order. *)
Theorem X9_shift_up_then_back (where_ inc : Z) (b mid : Blip) :
  0 <= inc ->
  NoDup (Dict.keys (_elements b)) ->
  NoDup (Dict.keys (_elements mid)) ->
  (forall k, Dict.get k (_elements mid)
             = Dict.get k (_elements (Blip._shift where_ inc b))) ->
  _annotations mid = _annotations (Blip._shift where_ inc b) ->
  (forall k, Dict.get k (_elements (Blip._shift where_ (- inc) mid))
             = Dict.get k (_elements b))
  /\ _annotations (Blip._shift where_ (- inc) mid) = _annotations b.
Proof.
  intros Hinc Hnd Hndm Hmid Hann.
  cbn [Blip._shift _elements _annotations] in *. split.
  - intros k. rewrite shift_elements_down_get; [|exact Hinc | exact Hndm |].
    + rewrite !Hmid, !shift_elements_up_get by assumption.
      destruct (Z.ltb_spec k where_) as [Hk|Hk]; [reflexivity|].
      replace (k + inc <? where_) with false by (symmetry; lia).
      replace (k + inc <? where_ + inc) with false by (symmetry; lia).
      f_equal. lia.
    + intros x Hx. apply keys_get in Hx as [v Hv].
      rewrite Hmid, shift_elements_up_get in Hv by assumption.
      destruct (Z.ltb_spec x where_); [left; assumption|].
      destruct (Z.ltb_spec x (where_ + inc)); [discriminate Hv | right; assumption].
  - rewrite Hann. unfold Annotations._shift. apply map_eq. intros name.
    rewrite !lookup_fmap. destruct (_annotations b !! name) as [l|]; [|reflexivity].
    cbn. f_equal. rewrite map_map. rewrite <- (map_id l) at 2.
    apply map_ext. intros a. apply annotation_shift_back. exact Hinc.
Qed.

Lemma X9_shift_up_then_back_witness :
  (forall k, Dict.get k (_elements (Blip._shift 5 (- 3) (Blip._shift 5 3 ten)))
             = Dict.get k (_elements ten))
  /\ _annotations (Blip._shift 5 (- 3) (Blip._shift 5 3 ten)) = _annotations ten.
Proof.
  apply (X9_shift_up_then_back 5 3 ten (Blip._shift 5 3 ten)).
  - lia.
  - apply (bool_decide_unpack _). vm_compute. exact I.
  - apply (bool_decide_unpack _). vm_compute. exact I.
  - reflexivity.
  - reflexivity.
Defined.

(** ** Selecting *)

Lemma str_find_occurs (s sub : text) (pos i : Z) :
  0 <= pos -> pos <= i -> occurs_at s sub i -> str_find s sub pos <> -1.
Proof.
  intros Hpos Hi Hocc E. exact (str_find_none s sub pos Hpos E i Hi Hocc).
Qed.

(** X10.  A selector made by [range] or [at], or by a search for [None],
    counts as true whatever its offsets; one made by a search for a
    string is true exactly when the string occurs in the content. *)
Theorem X10_nonzero (b : Blip) (what : text) (maxres start end_ : Z) :
  BlipRefs.__nonzero__ b (BlipQuery.range start end_) = true
  /\ BlipRefs.__nonzero__ b (BlipQuery.at_ start) = true
  /\ BlipRefs.__nonzero__ b (BlipQuery.all None maxres) = true
  /\ (BlipRefs.__nonzero__ b (BlipQuery.all (Some what) maxres) = true
      <-> exists i, occurs_at (_content b) what i).
Proof.
  split_and!; try reflexivity.
  unfold BlipRefs.__nonzero__, BlipQuery.all. cbn [BlipRefs.next_hit].
  destruct (Z.eqb_spec (str_find (_content b) what 0) (-1)) as [E|E].
  - split; [discriminate|]. intros [i Hi]. exfalso.
    apply (str_find_occurs (_content b) what 0 i); [lia | apply Hi | exact Hi | exact E].
  - split; [|reflexivity]. intros _.
    destruct (str_find_found (_content b) what 0 _ (Z.le_refl 0) eq_refl E)
      as (_ & Hocc & _).
    eauto.
Qed.

(** X11.  [first] (a search with max_results = 1) ends after two
    resumptions for every pattern, the empty one too: it yields nothing
    when the pattern does not occur, and otherwise the one hit that
    spans its first occurrence. *)
Theorem X11_first_yields_first_occurrence (b : Blip) (what : text) :
  (BlipRefs._find 2 b what 1 = Some []
   /\ forall i, ~ occurs_at (_content b) what i)
  \/ exists i,
       BlipRefs._find 2 b what 1 = Some [(i, i + len what)]
       /\ occurs_at (_content b) what i
       /\ forall k, 0 <= k < i -> ~ occurs_at (_content b) what k.
Proof.
  unfold BlipRefs._find. cbn [BlipRefs._find_from BlipRefs.next_hit].
  destruct (Z.eqb_spec (str_find (_content b) what 0) (-1)) as [E|E].
  - left. split; [reflexivity|]. intros i Hi.
    apply (str_find_occurs (_content b) what 0 i); [lia | apply Hi | exact Hi | exact E].
  - right. exists (str_find (_content b) what 0).
    destruct (str_find_found (_content b) what 0 _ (Z.le_refl 0) eq_refl E)
      as (_ & Hocc & Hmin).
    split_and!; [reflexivity | exact Hocc | exact Hmin].
Qed.

Lemma str_find_empty (s : text) : str_find s [] 0 = 0.
Proof.
  unfold str_find. change (0 <? 0) with false. cbv iota zeta.
  destruct (Z.gtb_spec 0 (len s)) as [H|H]; [unfold len in H; lia|].
  destruct s; reflexivity.
Qed.

Lemma find_empty_from (b : Blip) (maxres : Z) (fuel : nat) :
  maxres <= 0 ->
  forall count, 0 <= count ->
    BlipRefs._find_from fuel b [] maxres (BlipRefs.Yielded 0 count) = None.
Proof.
  intros Hmax. induction fuel as [|fuel IH]; intros count Hcount; [reflexivity|].
  cbn [BlipRefs._find_from BlipRefs.next_hit].
  replace (count + 1 =? maxres) with false by (symmetry; lia).
  change (0 + len (@nil ascii)) with 0. rewrite str_find_empty.
  cbn [Z.eqb]. rewrite IH by lia. reflexivity.
Qed.

(** X12.  A search for the empty string without a bound on the results
    (max_results <= 0) never ends: it yields the hit (0, 0) again and
    again, so no number of resumptions exhausts it. *)
Theorem X12_empty_pattern_never_ends (b : Blip) (maxres : Z) (fuel : nat) :
  maxres <= 0 ->
  BlipRefs._find fuel b [] maxres = None
  /\ BlipRefs.next_hit b (BlipQuery.all (Some []) maxres) BlipRefs.Fresh
     = Some ((0, 0), BlipRefs.Yielded 0 0)
  /\ forall count, 0 <= count ->
       BlipRefs.next_hit b (BlipQuery.all (Some []) maxres) (BlipRefs.Yielded 0 count)
       = Some ((0, 0), BlipRefs.Yielded 0 (count + 1)).
Proof.
  intros Hmax. split_and!.
  - destruct fuel as [|fuel]; [reflexivity|].
    unfold BlipRefs._find. cbn [BlipRefs._find_from BlipRefs.next_hit].
    rewrite str_find_empty. cbn [Z.eqb].
    rewrite find_empty_from by lia. reflexivity.
  - unfold BlipQuery.all. cbn [BlipRefs.next_hit].
    rewrite str_find_empty. reflexivity.
  - intros count Hcount. unfold BlipQuery.all. cbn [BlipRefs.next_hit].
    replace (count + 1 =? maxres) with false by (symmetry; lia).
    change (0 + len (@nil ascii)) with 0. rewrite str_find_empty. reflexivity.
Qed.

Lemma X12_empty_pattern_never_ends_witness :
  BlipRefs._find 100 banana [] (-1) = None.
Proof.
  apply (X12_empty_pattern_never_ends banana (-1) 100). lia.
Defined.

Lemma clamp_index_in {A} (s : list A) (i : Z) :
  0 <= i <= len s -> clamp_index s i = Z.to_nat i.
Proof.
  intros Hi. unfold clamp_index.
  replace (i <? 0) with false by (symmetry; lia). f_equal. lia.
Qed.

(** The slice that spans an occurrence is the pattern. *)
Lemma slice_occurrence (s sub : text) (i : Z) :
  occurs_at s sub i -> slice s i (i + len sub) = sub.
Proof.
  intros Hocc. pose proof (occurs_at_bound _ _ _ Hocc) as Hb.
  destruct Hocc as [Hi [post Hpost]]. unfold slice.
  assert (Hlen : 0 <= len sub) by (unfold len; lia).
  rewrite !clamp_index_in by lia. rewrite Hpost.
  replace (Z.to_nat (i + len sub) - Z.to_nat i)%nat with (length sub)
    by (unfold len in *; lia).
  apply take_app_length.
Qed.

Lemma item_at_occurrence (b : Blip) (what : text) (i : Z) :
  occurs_at (_content b) what i ->
  BlipRefs.item_at b i (i + len what)
  = if len what =? 1 then
      match Dict.get i (_elements b) with
      | Some el => BlipRefs.Elem el
      | None => BlipRefs.Text what
      end
    else BlipRefs.Text what.
Proof.
  intros Hocc. unfold BlipRefs.item_at.
  replace (i + len what - i) with (len what) by lia.
  rewrite (slice_occurrence _ _ _ Hocc). reflexivity.
Qed.

(** X13.  [value] of a search for a string fails with the "no values"
    [ValueError] exactly when the string does not occur.  Otherwise it
    is taken at the first occurrence: the searched string itself, unless
    the string is one character long and an element is registered at
    that offset, which is then the value. *)
Theorem X13_value_of_text_search (b : Blip) (what : text) (maxres : Z) :
  match BlipRefs.value b (BlipQuery.all (Some what) maxres) with
  | inl err =>
      err = ValueError "BlipRefs has no values"
      /\ forall i, ~ occurs_at (_content b) what i
  | inr item =>
      exists i,
        occurs_at (_content b) what i
        /\ (forall k, 0 <= k < i -> ~ occurs_at (_content b) what k)
        /\ item = if len what =? 1 then
                    match Dict.get i (_elements b) with
                    | Some el => BlipRefs.Elem el
                    | None => BlipRefs.Text what
                    end
                  else BlipRefs.Text what
  end.
Proof.
  unfold BlipRefs.value, BlipQuery.all. cbn [BlipRefs.next_hit].
  destruct (Z.eqb_spec (str_find (_content b) what 0) (-1)) as [E|E].
  - split; [reflexivity|]. intros i Hi.
    apply (str_find_occurs (_content b) what 0 i); [lia | apply Hi | exact Hi | exact E].
  - destruct (str_find_found (_content b) what 0 _ (Z.le_refl 0) eq_refl E)
      as (_ & Hocc & Hmin).
    exists (str_find (_content b) what 0).
    split_and!; [exact Hocc | exact Hmin | apply item_at_occurrence; exact Hocc].
Qed.

(** X14.  [value] takes the offsets of the hit as they are, without the
    normalization that mutations apply: unless an element is registered
    under the key -1, [blip.at(-1).value()] is the empty string for
    every blip, while a mutation of [blip.at(-1)] on a blip that is not
    empty passes the range check and addresses the last character. *)
Theorem X14_value_at_minus_one (b : Blip) :
  Dict.get (-1) (_elements b) = None ->
  BlipRefs.value b (BlipQuery.at_ (-1)) = inr (BlipRefs.Text [])
  /\ (_content b <> [] ->
      BlipRefs.normalize (Blip.__len__ b) (-1) (-1 + 1)
        = (Blip.__len__ b - 1, Blip.__len__ b)
      /\ BlipRefs.check_range (Blip.__len__ b) (Blip.__len__ b - 1) (Blip.__len__ b)
         = None).
Proof.
  intros Hel. split.
  - unfold BlipRefs.value, BlipQuery.at_. cbn [BlipRefs.next_hit].
    unfold BlipRefs.item_at. change (-1 + 1 - -1 =? 1) with true. cbv iota.
    rewrite Hel. unfold slice. change (-1 + 1) with 0.
    rewrite (clamp_index_in _ 0) by (unfold len; lia).
    reflexivity.
  - intros Hne. unfold Blip.__len__.
    assert (Hlen : 1 <= len (_content b))
      by (destruct (_content b); [congruence | unfold len; cbn; lia]).
    split.
    + rewrite normalize_eq by lia. change (-1 + 1) with 0.
      change ((-1 <? 0) && (0 =? 0)) with true. cbv iota.
      unfold relative. change (-1 <? 0) with true. cbv iota.
      f_equal. lia.
    + unfold BlipRefs.check_range.
      replace (len (_content b) =? 0) with false by (symmetry; lia).
      replace (len (_content b) - 1 <? 0) with false by (symmetry; lia).
      replace (len (_content b) <? 1) with false by (symmetry; lia).
      replace (len (_content b) - 1 >=? len (_content b)) with false by (symmetry; lia).
      replace (len (_content b) >? len (_content b)) with false by (symmetry; lia).
      reflexivity.
Qed.

Lemma X14_value_at_minus_one_witness :
  BlipRefs.value abc (BlipQuery.at_ (-1)) = inr (BlipRefs.Text [])
  /\ BlipRefs.normalize (Blip.__len__ abc) (-1) (-1 + 1)
       = (Blip.__len__ abc - 1, Blip.__len__ abc)
  /\ BlipRefs.check_range (Blip.__len__ abc) (Blip.__len__ abc - 1) (Blip.__len__ abc)
     = None.
Proof.
  destruct (X14_value_at_minus_one abc) as [H1 H2].
  - reflexivity.
  - split; [exact H1 | apply H2; discriminate].
Defined.

(** ** Mutating *)

(** Offsets that pass the range checks lie within the content. *)
Lemma check_range_bounds (n start end_ : Z) :
  0 <= n -> BlipRefs.check_range n start end_ = None ->
  0 <= start <= n /\ 0 <= end_ <= n.
Proof.
  intros Hn H. apply check_range_spec in H. unfold in_range in H.
  destruct (decide (n = 0)); lia.
Qed.

Lemma slice_to_in {A} (s : list A) (i : Z) :
  0 <= i <= len s -> slice_to s i = take (Z.to_nat i) s.
Proof. intros Hi. unfold slice_to. rewrite clamp_index_in by exact Hi. reflexivity. Qed.

Lemma slice_from_in {A} (s : list A) (i : Z) :
  0 <= i <= len s -> slice_from s i = drop (Z.to_nat i) s.
Proof. intros Hi. unfold slice_from. rewrite clamp_index_in by exact Hi. reflexivity. Qed.

Lemma len_app {A} (l k : list A) : len (l ++ k) = len l + len k.
Proof. unfold len. rewrite length_app. lia. Qed.

Lemma len_take {A} (s : list A) (i : Z) :
  0 <= i <= len s -> len (take (Z.to_nat i) s) = i.
Proof. intros Hi. unfold len in *. rewrite length_take. lia. Qed.

Lemma len_drop {A} (s : list A) (i : Z) :
  0 <= i <= len s -> len (drop (Z.to_nat i) s) = len s - i.
Proof. intros Hi. unfold len in *. rewrite length_drop. lia. Qed.

Lemma len_nonneg {A} (s : list A) : 0 <= len s.
Proof. unfold len. lia. Qed.

(** A selector made by [range] yields its one hit and stops: two rounds
    of the loop of [_execute] are enough. *)
Lemma execute_range (fuel : nat) (b : Blip) (start end_ : Z)
    (how : BlipRefs.Mutation) :
  BlipRefs._execute (S (S fuel)) b (BlipRefs.Range start end_) how
  = Some match BlipRefs.execute_hit how (BlipRefs.mkExec b 0 []) (start, end_) with
         | inl err => inl (err, b)
         | inr st => BlipRefs.describe how st
         end.
Proof.
  unfold BlipRefs._execute. cbn [BlipRefs.execute_loop BlipRefs.next_hit BlipRefs.blip].
  destruct (BlipRefs.execute_hit how _ (start, end_)); reflexivity.
Qed.

(** The same for a search for [None], whose one hit is the whole blip. *)
Lemma execute_whole (fuel : nat) (b : Blip) (maxres : Z)
    (how : BlipRefs.Mutation) :
  BlipRefs._execute (S (S fuel)) b (BlipRefs.All None maxres) how
  = Some match BlipRefs.execute_hit how (BlipRefs.mkExec b 0 [])
                 (0, Blip.__len__ b) with
         | inl err => inl (err, b)
         | inr st => BlipRefs.describe how st
         end.
Proof.
  unfold BlipRefs._execute. cbn [BlipRefs.execute_loop BlipRefs.next_hit BlipRefs.blip].
  destruct (BlipRefs.execute_hit how _ (0, Blip.__len__ b)); reflexivity.
Qed.

(** What DELETE makes of a hit that passes the checks. *)
Lemma execute_hit_delete (st : BlipRefs.Exec) (start end_ s e : Z) :
  BlipRefs.normalize (Blip.__len__ (BlipRefs.blip st)) start end_ = (s, e) ->
  BlipRefs.check_range (Blip.__len__ (BlipRefs.blip st)) s e = None ->
  exists st',
    BlipRefs.execute_hit BlipRefs.DELETE st (start, end_) = inr st'
    /\ _content (BlipRefs.blip st')
       = take (Z.to_nat s) (_content (BlipRefs.blip st))
         ++ drop (Z.to_nat e) (_content (BlipRefs.blip st))
    /\ _elements (BlipRefs.blip st')
       = Blip._shift_elements e (s - e)
           (foldl (fun els i => if Dict.contains i els then Dict.del i els else els)
                  (_elements (BlipRefs.blip st)) (seqZ s (e - s)))
    /\ _annotations (BlipRefs.blip st')
       = Annotations._shift e (s - e) (_annotations (BlipRefs.blip st)).
Proof.
  intros Hnorm Hcheck.
  pose proof (check_range_bounds _ _ _ (len_nonneg _) Hcheck) as [Hs He].
  unfold BlipRefs.execute_hit. cbn [fst snd]. rewrite Hnorm, Hcheck.
  eexists. split; [reflexivity|].
  cbn [BlipRefs.blip BlipRefs.with_blip Blip._shift _content _elements _annotations].
  rewrite slice_to_in, slice_from_in by exact He || exact Hs.
  split_and!; reflexivity.
Qed.

(** X15.  A DELETE of a hit that passes the checks keeps the content
    before the start and the content from the end on, so the length
    changes by start - end: when the end is before the start, nothing is
    removed and the content between them is there twice. *)
Theorem X15_delete_length (st : BlipRefs.Exec) (start end_ s e : Z) :
  BlipRefs.normalize (Blip.__len__ (BlipRefs.blip st)) start end_ = (s, e) ->
  BlipRefs.check_range (Blip.__len__ (BlipRefs.blip st)) s e = None ->
  exists st',
    BlipRefs.execute_hit BlipRefs.DELETE st (start, end_) = inr st'
    /\ _content (BlipRefs.blip st')
       = take (Z.to_nat s) (_content (BlipRefs.blip st))
         ++ drop (Z.to_nat e) (_content (BlipRefs.blip st))
    /\ Blip.__len__ (BlipRefs.blip st')
       = Blip.__len__ (BlipRefs.blip st) + (s - e).
Proof.
  intros Hnorm Hcheck.
  pose proof (check_range_bounds _ _ _ (len_nonneg _) Hcheck) as [Hs He].
  destruct (execute_hit_delete st start end_ s e Hnorm Hcheck)
    as (st' & Hrun & Hcontent & _).
  exists st'. split_and!; [exact Hrun | exact Hcontent |].
  unfold Blip.__len__ in *. rewrite Hcontent, len_app, len_take, len_drop by assumption.
  lia.
Qed.

Lemma X15_delete_length_witness :
  exists st',
    BlipRefs.execute_hit BlipRefs.DELETE (BlipRefs.mkExec banana 0 []) (4, 2) = inr st'
    /\ _content (BlipRefs.blip st')
       = take (Z.to_nat 4) (_content banana) ++ drop (Z.to_nat 2) (_content banana)
    /\ Blip.__len__ (BlipRefs.blip st') = Blip.__len__ banana + (4 - 2).
Proof.
  apply (X15_delete_length (BlipRefs.mkExec banana 0 []) 4 2 4 2); reflexivity.
Defined.

Lemma mod_index (n i : Z) :
  - n <= i < n -> i mod n = if i <? 0 then i + n else i.
Proof.
  intros Hi. destruct (Z.ltb_spec i 0).
  - symmetry. apply (Z.mod_unique_pos i n (-1) (i + n)); lia.
  - apply Z.mod_small. lia.
Qed.

(** The hit of [at(i)] after normalization. *)
Lemma at_normalize (n i : Z) :
  0 <= n ->
  BlipRefs.normalize n i (i + 1)
  = (if i <? 0 then i + n else i, if i <? 0 then i + n + 1 else i + 1).
Proof.
  intros Hn. rewrite normalize_eq by exact Hn. unfold relative.
  destruct (Z.ltb_spec i 0); cbn [andb].
  - destruct (Z.eqb_spec (i + 1) 0).
    + f_equal. lia.
    + replace (i + 1 <? 0) with true by (symmetry; lia). f_equal. lia.
  - replace (i + 1 <? 0) with false by (symmetry; lia). reflexivity.
Qed.

(** X16.  [del blip[i]] takes an index in the way of Python: for
    -len <= i < len it removes the one character at offset i mod len
    and nothing else of the content; for every other index, and for
    every index on an empty blip, it stops with one of the two
    out-of-range errors and the blip is as before. *)
Theorem X16_delitem_index (b : Blip) (i : Z) :
  (- Blip.__len__ b <= i < Blip.__len__ b ->
   exists st',
     BlipQuery.__delitem__ 2 b (BlipQuery.Index i) = Some (inr st')
     /\ _content (BlipRefs.blip st')
        = take (Z.to_nat (i mod Blip.__len__ b)) (_content b)
          ++ drop (S (Z.to_nat (i mod Blip.__len__ b))) (_content b))
  /\ (~ (- Blip.__len__ b <= i < Blip.__len__ b) ->
      exists err,
        BlipQuery.__delitem__ 2 b (BlipQuery.Index i) = Some (inl (err, b))
        /\ (err = position_error \/ err = empty_document_error)).
Proof.
  unfold BlipQuery.__delitem__, BlipQuery.__getitem__, BlipQuery.at_.
  rewrite execute_range.
  pose proof (len_nonneg (_content b)) as Hn. fold (Blip.__len__ b) in Hn.
  pose proof (at_normalize (Blip.__len__ b) i Hn) as Hnorm.
  set (n := Blip.__len__ b) in *.
  split.
  - intros Hi. rewrite (mod_index n i Hi).
    set (s := if i <? 0 then i + n else i) in *.
    assert (Hs : 0 <= s < n) by (unfold s; destruct (Z.ltb_spec i 0); lia).
    replace (if i <? 0 then i + n + 1 else i + 1) with (s + 1) in Hnorm
      by (unfold s; destruct (i <? 0); reflexivity).
    assert (Hcheck : BlipRefs.check_range n s (s + 1) = None).
    { apply check_range_spec. unfold in_range.
      rewrite decide_False by lia. lia. }
    destruct (execute_hit_delete (BlipRefs.mkExec b 0 []) i (i + 1) s (s + 1)
                Hnorm Hcheck) as (st' & Hrun & Hcontent & _).
    rewrite Hrun. exists st'. split; [reflexivity|].
    rewrite Hcontent. cbn [BlipRefs.blip]. do 2 f_equal. lia.
  - intros Hi.
    set (s := if i <? 0 then i + n else i) in *.
    set (e := if i <? 0 then i + n + 1 else i + 1) in *.
    assert (Hout : ~ in_range n s e).
    { unfold in_range, s, e. destruct (decide (n = 0)), (Z.ltb_spec i 0); lia. }
    destruct (check_range_spec n s e) as (_ & Hempty & Hpos).
    destruct (decide (n = 0)) as [Hz|Hz].
    + exists empty_document_error. split; [|right; reflexivity].
      assert (Hrun : BlipRefs.execute_hit BlipRefs.DELETE (BlipRefs.mkExec b 0 [])
                       (i, i + 1) = inl empty_document_error).
      { apply execute_hit_range_error; [left; reflexivity|].
        cbn [BlipRefs.blip]. fold n. rewrite Hnorm. cbn [fst snd].
        apply Hempty. split; assumption. }
      rewrite Hrun. reflexivity.
    + exists position_error. split; [|left; reflexivity].
      assert (Hrun : BlipRefs.execute_hit BlipRefs.DELETE (BlipRefs.mkExec b 0 [])
                       (i, i + 1) = inl position_error).
      { apply execute_hit_range_error; [right; reflexivity|].
        cbn [BlipRefs.blip]. fold n. rewrite Hnorm. cbn [fst snd].
        apply Hpos. split; assumption. }
      rewrite Hrun. reflexivity.
Qed.

Lemma X16_delitem_index_witness :
  exists st',
    BlipQuery.__delitem__ 2 abc (BlipQuery.Index (-1)) = Some (inr st')
    /\ _content (BlipRefs.blip st')
       = take (Z.to_nat (-1 mod Blip.__len__ abc)) (_content abc)
         ++ drop (S (Z.to_nat (-1 mod Blip.__len__ abc))) (_content abc).
Proof.
  apply (proj1 (X16_delitem_index abc (-1))).
  vm_compute. split; [discriminate | reflexivity].
Defined.

(** The insertion of a text at one point [p] of the content. *)
Lemma splice_text_at (b : Blip) (t : text) (p : Z) :
  0 <= p <= Blip.__len__ b ->
  NoDup (Dict.keys (_elements b)) ->
  _content (BlipRefs.splice b (inl t) p p)
    = take (Z.to_nat p) (_content b) ++ t ++ drop (Z.to_nat p) (_content b)
  /\ Blip.__len__ (BlipRefs.splice b (inl t) p p)
     = Blip.__len__ b + len t
  /\ forall k,
       Dict.get k (_elements (BlipRefs.splice b (inl t) p p))
       = if k <? p then Dict.get k (_elements b)
         else if k <? p + len t then None
         else Dict.get (k - len t) (_elements b).
Proof.
  intros Hp Hnd. unfold Blip.__len__ in *.
  assert (Hc : _content (BlipRefs.splice b (inl t) p p)
               = take (Z.to_nat p) (_content b) ++ t ++ drop (Z.to_nat p) (_content b)).
  { cbn [BlipRefs.splice Blip._shift _content].
    rewrite slice_to_in, slice_from_in by exact Hp. reflexivity. }
  split_and!.
  - exact Hc.
  - rewrite Hc, !len_app, len_take, len_drop by exact Hp. lia.
  - intros k. cbn [BlipRefs.splice Blip._shift _elements].
    replace (len t + p - p) with (len t) by lia.
    apply shift_elements_up_get; [apply len_nonneg | exact Hnd].
Qed.

(** What an insertion makes of a hit that passes the checks, for the
    value picked. *)
Lemma execute_hit_insert (st : BlipRefs.Exec) (what : list BlipRefs.Content)
    (v : BlipRefs.Content) (start end_ s e : Z) (after : bool) :
  BlipRefs.normalize (Blip.__len__ (BlipRefs.blip st)) start end_ = (s, e) ->
  BlipRefs.check_range (Blip.__len__ (BlipRefs.blip st)) s e = None ->
  what !! Z.to_nat (BlipRefs.next_index st) = Some v ->
  BlipRefs.execute_hit
    (if after then BlipRefs.INSERT_AFTER what else BlipRefs.INSERT what)
    st (start, end_)
  = match BlipRefs.decode v with
    | inl err => inl err
    | inr next =>
        inr (BlipRefs.mkExec
               (BlipRefs.splice (BlipRefs.blip st) next
                  (if after then e else s) (if after then e else s))
               ((BlipRefs.next_index st + 1) mod len what)
               (BlipRefs.updated_elements st))
    end.
Proof.
  intros Hnorm Hcheck Hpick.
  unfold BlipRefs.execute_hit. cbn [fst snd]. rewrite Hnorm, Hcheck.
  unfold BlipRefs.pick. destruct after; rewrite Hpick; reflexivity.
Qed.

(** X17.  INSERT at a hit that passes the checks puts a text at the
    start of the hit, INSERT_AFTER at its end, and removes nothing.  The
    text is the value itself when that is a unicode string, and what a
    byte string decodes to as UTF-8: the content grows by the length of
    that text, the elements before the point stay, those at or after it
    are found that many offsets further, and no element is registered
    within the new text.  A byte string that is not valid UTF-8 makes
    the hit end in UnicodeDecodeError. *)
Theorem X17_insert_text (st : BlipRefs.Exec) (what : list BlipRefs.Content)
    (v : BlipRefs.Content) (t : text) (start end_ s e : Z) (after : bool) :
  BlipRefs.normalize (Blip.__len__ (BlipRefs.blip st)) start end_ = (s, e) ->
  BlipRefs.check_range (Blip.__len__ (BlipRefs.blip st)) s e = None ->
  what !! Z.to_nat (BlipRefs.next_index st) = Some v ->
  NoDup (Dict.keys (_elements (BlipRefs.blip st))) ->
  let p := if after then e else s in
  (v = BlipRefs.Text t \/ v = BlipRefs.Str (Some t) ->
   exists st',
     BlipRefs.execute_hit
       (if after then BlipRefs.INSERT_AFTER what else BlipRefs.INSERT what)
       st (start, end_) = inr st'
     /\ _content (BlipRefs.blip st')
        = take (Z.to_nat p) (_content (BlipRefs.blip st)) ++ t
          ++ drop (Z.to_nat p) (_content (BlipRefs.blip st))
     /\ Blip.__len__ (BlipRefs.blip st')
        = Blip.__len__ (BlipRefs.blip st) + len t
     /\ forall k,
          Dict.get k (_elements (BlipRefs.blip st'))
          = if k <? p then Dict.get k (_elements (BlipRefs.blip st))
            else if k <? p + len t then None
            else Dict.get (k - len t) (_elements (BlipRefs.blip st)))
  /\ (v = BlipRefs.Str None ->
      BlipRefs.execute_hit
        (if after then BlipRefs.INSERT_AFTER what else BlipRefs.INSERT what)
        st (start, end_) = inl UnicodeDecodeError).
Proof.
  intros Hnorm Hcheck Hpick Hnd p.
  pose proof (check_range_bounds _ _ _ (len_nonneg _) Hcheck) as [Hs He].
  assert (Hp : 0 <= p <= Blip.__len__ (BlipRefs.blip st))
    by (unfold p; destruct after; assumption).
  rewrite (execute_hit_insert st what v start end_ s e after Hnorm Hcheck Hpick).
  fold p. split.
  - intros Hv.
    assert (Hdec : BlipRefs.decode v = inr (inl t))
      by (destruct Hv as [-> | ->]; reflexivity).
    rewrite Hdec. eexists. split; [reflexivity|]. cbn [BlipRefs.blip].
    apply splice_text_at; assumption.
  - intros ->. reflexivity.
Qed.

Lemma X17_insert_text_witness :
  (exists st',
    BlipRefs.execute_hit
      (BlipRefs.INSERT [BlipRefs.Str (Some (list_ascii_of_string "xy"))])
      (BlipRefs.mkExec ten 0 []) (5, 7) = inr st'
    /\ _content (BlipRefs.blip st')
       = take (Z.to_nat 5) (_content ten) ++ list_ascii_of_string "xy"
         ++ drop (Z.to_nat 5) (_content ten)
    /\ Blip.__len__ (BlipRefs.blip st')
       = Blip.__len__ ten + len (list_ascii_of_string "xy")
    /\ forall k,
         Dict.get k (_elements (BlipRefs.blip st'))
         = if k <? 5 then Dict.get k (_elements ten)
           else if k <? 5 + len (list_ascii_of_string "xy") then None
           else Dict.get (k - len (list_ascii_of_string "xy")) (_elements ten))
  /\ BlipRefs.execute_hit (BlipRefs.INSERT [BlipRefs.Str None])
       (BlipRefs.mkExec ten 0 []) (5, 7) = inl UnicodeDecodeError.
Proof.
  assert (Hnd : NoDup (Dict.keys (_elements ten)))
    by (apply (bool_decide_unpack _); vm_compute; exact I).
  split.
  - apply (proj1 (X17_insert_text (BlipRefs.mkExec ten 0 [])
                    [BlipRefs.Str (Some (list_ascii_of_string "xy"))]
                    (BlipRefs.Str (Some (list_ascii_of_string "xy")))
                    (list_ascii_of_string "xy") 5 7 5 7 false
                    eq_refl eq_refl eq_refl Hnd)).
    right. reflexivity.
  - apply (proj2 (X17_insert_text (BlipRefs.mkExec ten 0 [])
                    [BlipRefs.Str None] (BlipRefs.Str None) [] 5 7 5 7 false
                    eq_refl eq_refl eq_refl Hnd)).
    reflexivity.
Defined.

(** X18.  INSERT of an element at a hit that passes the checks puts one
    placeholder blank at the start of the hit and registers the element
    there: the content grows by one, the elements before that offset
    stay, and those that were at or after it, one at the very offset
    too, are found one offset further. *)
Theorem X18_insert_element (st : BlipRefs.Exec) (what : list BlipRefs.Content)
    (el : Element) (start end_ s e : Z) :
  BlipRefs.normalize (Blip.__len__ (BlipRefs.blip st)) start end_ = (s, e) ->
  BlipRefs.check_range (Blip.__len__ (BlipRefs.blip st)) s e = None ->
  what !! Z.to_nat (BlipRefs.next_index st) = Some (BlipRefs.Elem el) ->
  NoDup (Dict.keys (_elements (BlipRefs.blip st))) ->
  exists st',
    BlipRefs.execute_hit (BlipRefs.INSERT what) st (start, end_) = inr st'
    /\ _content (BlipRefs.blip st')
       = take (Z.to_nat s) (_content (BlipRefs.blip st)) ++ [" "%char]
         ++ drop (Z.to_nat s) (_content (BlipRefs.blip st))
    /\ Blip.__len__ (BlipRefs.blip st') = Blip.__len__ (BlipRefs.blip st) + 1
    /\ Dict.get s (_elements (BlipRefs.blip st')) = Some el
    /\ forall k, k <> s ->
         Dict.get k (_elements (BlipRefs.blip st'))
         = if k <? s then Dict.get k (_elements (BlipRefs.blip st))
           else Dict.get (k - 1) (_elements (BlipRefs.blip st)).
Proof.
  intros Hnorm Hcheck Hpick Hnd.
  pose proof (check_range_bounds _ _ _ (len_nonneg _) Hcheck) as [Hs He].
  set (b := BlipRefs.blip st) in *.
  exists (BlipRefs.mkExec (BlipRefs.splice b (inr el) s s)
            ((BlipRefs.next_index st + 1) mod len what)
            (BlipRefs.updated_elements st)).
  assert (Hc : _content (BlipRefs.splice b (inr el) s s)
               = take (Z.to_nat s) (_content b) ++ [" "%char]
                 ++ drop (Z.to_nat s) (_content b)).
  { cbn [BlipRefs.splice Blip._shift _content].
    unfold Blip.__len__ in *. rewrite slice_to_in, slice_from_in by exact Hs.
    reflexivity. }
  split_and!.
  - unfold BlipRefs.execute_hit. cbn [fst snd]. fold b. rewrite Hnorm, Hcheck.
    unfold BlipRefs.pick. rewrite Hpick. reflexivity.
  - exact Hc.
  - cbn [BlipRefs.blip]. unfold Blip.__len__ in *.
    rewrite Hc, !len_app, len_take, len_drop by exact Hs.
    change (len [" "%char]) with 1. lia.
  - cbn [BlipRefs.blip BlipRefs.splice _elements]. rewrite get_set.
    rewrite decide_True by reflexivity. reflexivity.
  - intros k Hk. cbn [BlipRefs.blip BlipRefs.splice Blip._shift _elements].
    rewrite get_set. rewrite decide_False by congruence.
    replace (1 + s - s) with 1 by lia.
    rewrite shift_elements_up_get by (exact Hnd || lia).
    destruct (Z.ltb_spec k s); [reflexivity|].
    replace (k <? s + 1) with false by (symmetry; lia). reflexivity.
Qed.

Lemma X18_insert_element_witness :
  exists st',
    BlipRefs.execute_hit (BlipRefs.INSERT [BlipRefs.Elem gadget])
      (BlipRefs.mkExec ten 0 []) (2, 3) = inr st'
    /\ _content (BlipRefs.blip st')
       = take (Z.to_nat 2) (_content ten) ++ [" "%char]
         ++ drop (Z.to_nat 2) (_content ten)
    /\ Blip.__len__ (BlipRefs.blip st') = Blip.__len__ ten + 1
    /\ Dict.get 2 (_elements (BlipRefs.blip st')) = Some gadget
    /\ forall k, k <> 2 ->
         Dict.get k (_elements (BlipRefs.blip st'))
         = if k <? 2 then Dict.get k (_elements ten)
           else Dict.get (k - 1) (_elements ten).
Proof.
  apply (X18_insert_element (BlipRefs.mkExec ten 0 []) [BlipRefs.Elem gadget]
           gadget 2 3 2 3 eq_refl eq_refl eq_refl).
  apply (bool_decide_unpack _). vm_compute. exact I.
Defined.

(** *** Elements under DELETE *)

Lemma del_absent {K V : Type} `{EqDecision K} (j : K) (d : Dict.t K V) :
  Dict.contains j d = false -> Dict.del j d = d.
Proof.
  unfold Dict.contains. induction d as [|[k v] d IH]; cbn; [reflexivity|].
  destruct (decide (k = j)); [discriminate|]. intros H. rewrite IH by exact H.
  reflexivity.
Qed.

Lemma get_del_ne {K V : Type} `{EqDecision K} (j k : K) (d : Dict.t K V) :
  k <> j -> Dict.get k (Dict.del j d) = Dict.get k d.
Proof.
  intros Hne. induction d as [|[k0 v0] d IH]; cbn; [reflexivity|].
  destruct (decide (k0 = j)) as [->|].
  - rewrite decide_False by congruence. reflexivity.
  - cbn. rewrite IH. reflexivity.
Qed.

Lemma keys_del {K V : Type} `{EqDecision K} (j k : K) (d : Dict.t K V) :
  k ∈ Dict.keys (Dict.del j d) -> k ∈ Dict.keys d.
Proof.
  unfold Dict.keys. induction d as [|[k0 v0] d IH]; cbn; [auto|].
  destruct (decide (k0 = j)).
  - intros H. right. exact H.
  - cbn. intros H. apply elem_of_cons in H as [->|H]; [left | right; auto].
Qed.

Lemma NoDup_del {K V : Type} `{EqDecision K} (j : K) (d : Dict.t K V) :
  NoDup (Dict.keys d) ->
  NoDup (Dict.keys (Dict.del j d)) /\ j ∉ Dict.keys (Dict.del j d).
Proof.
  induction d as [|[k0 v0] d IH]; cbn.
  - intros _. split; [constructor | apply not_elem_of_nil].
  - intros Hnd. apply NoDup_cons in Hnd as [Hk0 Hnd].
    destruct (decide (k0 = j)) as [->|Hne].
    + split; assumption.
    + destruct (IH Hnd) as [IH1 IH2]. split.
      * apply NoDup_cons. split; [|exact IH1].
        intros Hin. apply Hk0. exact (keys_del _ _ _ Hin).
      * intros Hin. apply elem_of_cons in Hin as [Heq|Hin];
          [apply Hne; symmetry; exact Heq | auto].
Qed.

(** The table after the loop of DELETE that drops the entries at the
    offsets [js]. *)
Lemma delete_range_elements (js : list Z) (d : Dict.t Z Element) :
  NoDup (Dict.keys d) ->
  let r := foldl (fun els i => if Dict.contains i els then Dict.del i els else els)
                 d js in
  NoDup (Dict.keys r)
  /\ (forall k, k ∈ Dict.keys r -> k ∉ js)
  /\ (forall k, k ∉ js -> Dict.get k r = Dict.get k d).
Proof.
  revert d. induction js as [|j js IH]; intros d Hnd; cbn [foldl].
  - split_and!; [exact Hnd | intros k _; apply not_elem_of_nil | reflexivity].
  - assert (Hstep : (if Dict.contains j d then Dict.del j d else d) = Dict.del j d).
    { destruct (Dict.contains j d) eqn:E; [reflexivity|].
      symmetry. apply del_absent. exact E. }
    rewrite Hstep. destruct (NoDup_del j d Hnd) as [Hnd' Hj].
    destruct (IH (Dict.del j d) Hnd') as (H1 & H2 & H3).
    split_and!.
    + exact H1.
    + intros k Hk Hin. apply elem_of_cons in Hin as [->|Hin].
      * apply Hj. clear - Hk.
        revert Hk. generalize (Dict.del j d). induction js as [|i js IH];
          intros d0; cbn [foldl]; [auto|].
        intros Hk. apply IH in Hk.
        destruct (Dict.contains i d0); [exact (keys_del _ _ _ Hk) | exact Hk].
      * exact (H2 k Hk Hin).
    + intros k Hk. apply not_elem_of_cons in Hk as [Hne Hk].
      rewrite H3 by exact Hk. apply get_del_ne. exact Hne.
Qed.

(** X19.  DELETE of a hit that passes the checks, with its start not
    after its end, drops the elements registered within the hit, keeps
    those before it where they are, and moves those at or after its end
    down by the length of the hit: an offset of the new table below the
    start holds what it held, any other offset holds what was that
    length further. *)
Theorem X19_delete_elements (st : BlipRefs.Exec) (start end_ s e : Z) :
  BlipRefs.normalize (Blip.__len__ (BlipRefs.blip st)) start end_ = (s, e) ->
  BlipRefs.check_range (Blip.__len__ (BlipRefs.blip st)) s e = None ->
  s <= e ->
  NoDup (Dict.keys (_elements (BlipRefs.blip st))) ->
  exists st',
    BlipRefs.execute_hit BlipRefs.DELETE st (start, end_) = inr st'
    /\ forall k,
         Dict.get k (_elements (BlipRefs.blip st'))
         = if k <? s then Dict.get k (_elements (BlipRefs.blip st))
           else Dict.get (k + (e - s)) (_elements (BlipRefs.blip st)).
Proof.
  intros Hnorm Hcheck Hse Hnd.
  destruct (execute_hit_delete st start end_ s e Hnorm Hcheck)
    as (st' & Hrun & _ & Hels & _).
  exists st'. split; [exact Hrun|]. intros k. rewrite Hels.
  destruct (delete_range_elements (seqZ s (e - s)) _ Hnd) as (H1 & H2 & H3).
  set (r := foldl _ _ _) in *.
  assert (Hout : forall x, x ∈ Dict.keys r -> x < s \/ e <= x).
  { intros x Hx. specialize (H2 x Hx). rewrite elem_of_seqZ in H2. lia. }
  assert (Hinj : forall x y, x ∈ Dict.keys r -> y ∈ Dict.keys r ->
            new_index e (s - e) x = new_index e (s - e) y -> x = y).
  { intros x y Hx Hy. apply Hout in Hx. apply Hout in Hy. unfold new_index.
    destruct (Z.geb_spec x e), (Z.geb_spec y e); lia. }
  rewrite shift_elements_distinct
    by (apply NoDup_fmap_2_strong; [exact Hinj | exact H1]).
  destruct (Z.ltb_spec k s) as [Hk|Hk].
  - replace k with (new_index e (s - e) k) at 1
      by (unfold new_index; replace (k >=? e) with false by (symmetry; lia);
          reflexivity).
    rewrite get_rekeyed_at.
    + apply H3. rewrite elem_of_seqZ. lia.
    + intros x Hx Heq. apply Hout in Hx. revert Heq. unfold new_index.
      destruct (Z.geb_spec x e), (Z.geb_spec k e); lia.
  - replace k with (new_index e (s - e) (k + (e - s))) at 1
      by (unfold new_index;
          replace (k + (e - s) >=? e) with true by (symmetry; lia); lia).
    rewrite get_rekeyed_at.
    + apply H3. rewrite elem_of_seqZ. lia.
    + intros x Hx Heq. apply Hout in Hx. revert Heq. unfold new_index.
      destruct (Z.geb_spec x e), (Z.geb_spec (k + (e - s)) e); lia.
Qed.

Lemma X19_delete_elements_witness :
  exists st',
    BlipRefs.execute_hit BlipRefs.DELETE (BlipRefs.mkExec ten 0 []) (1, 4) = inr st'
    /\ forall k,
         Dict.get k (_elements (BlipRefs.blip st'))
         = if k <? 1 then Dict.get k (_elements ten)
           else Dict.get (k + (4 - 1)) (_elements ten).
Proof.
  apply (X19_delete_elements (BlipRefs.mkExec ten 0 []) 1 4 1 4 eq_refl eq_refl).
  - lia.
  - apply (bool_decide_unpack _). vm_compute. exact I.
Defined.

(** X20.  DELETE of a hit whose start is not after its end, followed by
    an INSERT of the removed text (as a unicode string, or as a byte
    string that decodes to it) at a hit with the same start, gives back
    the content. *)
Theorem X20_delete_then_insert_restores_content (st : BlipRefs.Exec)
    (what : list BlipRefs.Content) (v : BlipRefs.Content)
    (start end_ s e start2 end2 e2 : Z) :
  BlipRefs.normalize (Blip.__len__ (BlipRefs.blip st)) start end_ = (s, e) ->
  BlipRefs.check_range (Blip.__len__ (BlipRefs.blip st)) s e = None ->
  s <= e ->
  what !! Z.to_nat (BlipRefs.next_index st) = Some v ->
  v = BlipRefs.Text (slice (_content (BlipRefs.blip st)) s e)
  \/ v = BlipRefs.Str (Some (slice (_content (BlipRefs.blip st)) s e)) ->
  BlipRefs.normalize (Blip.__len__ (BlipRefs.blip st) + (s - e)) start2 end2
    = (s, e2) ->
  BlipRefs.check_range (Blip.__len__ (BlipRefs.blip st) + (s - e)) s e2 = None ->
  exists st1 st2,
    BlipRefs.execute_hit BlipRefs.DELETE st (start, end_) = inr st1
    /\ BlipRefs.execute_hit (BlipRefs.INSERT what) st1 (start2, end2) = inr st2
    /\ _content (BlipRefs.blip st2) = _content (BlipRefs.blip st).
Proof.
  intros Hnorm Hcheck Hse Hpick Hv Hnorm2 Hcheck2.
  pose proof (check_range_bounds _ _ _ (len_nonneg _) Hcheck) as [Hs He].
  assert (Hdec : BlipRefs.decode v
                 = inr (inl (slice (_content (BlipRefs.blip st)) s e)))
    by (destruct Hv as [-> | ->]; reflexivity).
  unfold Blip.__len__ in *.
  set (c := _content (BlipRefs.blip st)) in *.
  assert (Hlen1 : len (take (Z.to_nat s) c ++ drop (Z.to_nat e) c) = len c + (s - e))
    by (rewrite len_app, len_take, len_drop by assumption; lia).
  eexists. eexists. split; [|split].
  - unfold BlipRefs.execute_hit. cbn [fst snd]. unfold Blip.__len__. fold c.
    rewrite Hnorm, Hcheck. reflexivity.
  - unfold BlipRefs.execute_hit.
    cbn [fst snd BlipRefs.blip BlipRefs.with_blip BlipRefs.next_index
         Blip._shift _content].
    unfold Blip.__len__. cbn [_content]. fold c.
    rewrite !slice_to_in, !slice_from_in by assumption.
    rewrite Hlen1, Hnorm2, Hcheck2. unfold BlipRefs.pick. rewrite Hpick.
    cbv iota beta. fold c in Hdec. rewrite Hdec. reflexivity.
  - cbn [BlipRefs.blip BlipRefs.splice Blip._shift _content BlipRefs.with_blip].
    rewrite slice_to_in, slice_from_in by (rewrite Hlen1; lia).
    unfold slice. rewrite !clamp_index_in by assumption.
    rewrite take_app_length', drop_app_length'
      by (rewrite length_take; unfold len in *; lia).
    rewrite <- (take_drop (Z.to_nat s) c) at 4.
    f_equal.
    rewrite <- (take_drop (Z.to_nat e - Z.to_nat s) (drop (Z.to_nat s) c)) at 2.
    f_equal. rewrite drop_drop. f_equal. lia.
Qed.

Lemma X20_delete_then_insert_restores_content_witness :
  exists st1 st2,
    BlipRefs.execute_hit BlipRefs.DELETE
      (BlipRefs.mkExec banana 0 []) (2, 4) = inr st1
    /\ BlipRefs.execute_hit
         (BlipRefs.INSERT [BlipRefs.Str (Some (list_ascii_of_string "na"))])
         st1 (2, 3) = inr st2
    /\ _content (BlipRefs.blip st2) = _content banana.
Proof.
  apply (X20_delete_then_insert_restores_content (BlipRefs.mkExec banana 0 [])
           [BlipRefs.Str (Some (list_ascii_of_string "na"))]
           (BlipRefs.Str (Some (list_ascii_of_string "na"))) 2 4 2 4 2 3 3
           eq_refl eq_refl).
  - lia.
  - reflexivity.
  - right. reflexivity.
  - reflexivity.
  - reflexivity.
Defined.

Lemma whole_hit_in_range (n : Z) :
  0 <= n ->
  BlipRefs.normalize n 0 n = (0, n) /\ BlipRefs.check_range n 0 n = None.
Proof.
  intros Hn. split.
  - rewrite normalize_eq by exact Hn. unfold relative.
    change (0 <? 0) with false. cbn [andb].
    replace (n <? 0) with false by (symmetry; lia). reflexivity.
  - apply check_range_spec. unfold in_range.
    destruct (decide (n = 0)); lia.
Qed.

(** X21.  [append] never fails on the range checks, whatever the blip,
    the empty one too: the whole blip is one hit that passes them.
    [append] of a unicode text, or of a byte string that decodes to a
    text as UTF-8, puts that text after the content; [append] of a byte
    string that is not valid UTF-8 stops with UnicodeDecodeError and the
    blip is as before. *)
Theorem X21_append_text (b : Blip) (t : text) (fuel : nat) :
  (forall v, v = BlipRefs.Text t \/ v = BlipRefs.Str (Some t) ->
     exists st',
       BlipQuery.append (S (S fuel)) b [v] = Some (inr st')
       /\ _content (BlipRefs.blip st') = _content b ++ t
       /\ Blip.__len__ (BlipRefs.blip st') = Blip.__len__ b + len t)
  /\ BlipQuery.append (S (S fuel)) b [BlipRefs.Str None]
     = Some (inl (UnicodeDecodeError, b)).
Proof.
  destruct (whole_hit_in_range (Blip.__len__ b) (len_nonneg _)) as [Hnorm Hcheck].
  assert (Hrun : forall v,
            BlipQuery.append (S (S fuel)) b [v]
            = Some match BlipRefs.decode v with
                   | inl err => inl (err, b)
                   | inr next =>
                       inr (BlipRefs.mkExec
                              (BlipRefs.splice b next (Blip.__len__ b) (Blip.__len__ b))
                              ((0 + 1) mod len [v]) [])
                   end).
  { intros v. unfold BlipQuery.append, BlipQuery.all. rewrite execute_whole.
    unfold BlipRefs.execute_hit.
    cbn [fst snd BlipRefs.blip BlipRefs.next_index BlipRefs.updated_elements].
    rewrite Hnorm, Hcheck.
    change (BlipRefs.pick [v] 0) with (@inr PyError _ (v, (0 + 1) mod len [v])).
    cbv iota beta. destruct (BlipRefs.decode v); reflexivity. }
  split.
  - intros v Hv.
    assert (Hdec : BlipRefs.decode v = inr (inl t))
      by (destruct Hv as [-> | ->]; reflexivity).
    rewrite Hrun, Hdec.
    assert (Hc : _content (BlipRefs.splice b (inl t) (Blip.__len__ b) (Blip.__len__ b))
                 = _content b ++ t).
    { cbn [BlipRefs.splice Blip._shift _content]. unfold Blip.__len__.
      rewrite slice_to_in, slice_from_in
        by (pose proof (len_nonneg (_content b)); lia).
      unfold len. rewrite Nat2Z.id, firstn_all, drop_all, app_nil_r. reflexivity. }
    eexists. split; [reflexivity|]. cbn [BlipRefs.blip]. split; [exact Hc|].
    unfold Blip.__len__ in *. rewrite Hc, len_app. reflexivity.
  - rewrite Hrun. reflexivity.
Qed.

Lemma X21_append_text_witness :
  exists st',
    BlipQuery.append 2 abc [BlipRefs.Str (Some (list_ascii_of_string "de"))]
      = Some (inr st')
    /\ _content (BlipRefs.blip st') = _content abc ++ list_ascii_of_string "de"
    /\ Blip.__len__ (BlipRefs.blip st')
       = Blip.__len__ abc + len (list_ascii_of_string "de").
Proof.
  apply (proj1 (X21_append_text abc (list_ascii_of_string "de") 0)).
  right. reflexivity.
Defined.

(** X22.  A hit of a search for a string that is not empty always passes
    the range checks of [_execute], as it is: its offsets are not
    negative and lie within the content. *)
Theorem X22_text_hits_in_range (b : Blip) (what : text) (maxres : Z)
    (cur cur' : BlipRefs.Cursor) (hit : Z * Z) :
  what <> [] ->
  cursor_ok cur ->
  BlipRefs.next_hit b (BlipQuery.all (Some what) maxres) cur = Some (hit, cur') ->
  BlipRefs.normalize (Blip.__len__ b) hit.1 hit.2 = hit
  /\ BlipRefs.check_range (Blip.__len__ b) hit.1 hit.2 = None.
Proof.
  intros Hne Hok Hnext.
  assert (Hw : 1 <= len what)
    by (destruct what; [congruence | unfold len; cbn; lia]).
  pose proof (next_hit_first_occurrence b what maxres cur Hok) as H.
  unfold BlipQuery.all in Hnext. rewrite Hnext in H. destruct hit as [i j].
  destruct H as (Hpos & Hocc & _ & -> & _).
  pose proof (occurs_at_bound _ _ _ Hocc) as Hb. destruct Hocc as [Hi _].
  cbn [fst snd]. unfold Blip.__len__. split.
  - rewrite normalize_eq by apply len_nonneg. unfold relative.
    replace (i <? 0) with false by (symmetry; lia). cbn [andb].
    replace (i + len what <? 0) with false by (symmetry; lia). reflexivity.
  - apply check_range_spec. unfold in_range.
    destruct (decide (len (_content b) = 0)); lia.
Qed.

Lemma X22_text_hits_in_range_witness :
  BlipRefs.normalize (Blip.__len__ banana) (1, 2).1 (1, 2).2 = (1, 2)
  /\ BlipRefs.check_range (Blip.__len__ banana) (1, 2).1 (1, 2).2 = None.
Proof.
  apply (X22_text_hits_in_range banana (list_ascii_of_string "a") (-1)
           BlipRefs.Fresh (BlipRefs.Yielded 1 0) (1, 2)).
  - discriminate.
  - exact I.
  - reflexivity.
Defined.

(** X23.  On a blip that is not empty, every mutation of the hits of a
    search for the empty string stops at the first hit, (0, 0), with the
    position error, and the blip is as before. *)
Theorem X23_empty_pattern_mutation_fails (b : Blip) (maxres : Z)
    (how : BlipRefs.Mutation) (fuel : nat) :
  _content b <> [] ->
  BlipRefs._execute (S fuel) b (BlipQuery.all (Some []) maxres) how
  = Some (inl (position_error, b)).
Proof.
  intros Hne.
  assert (Hlen : 1 <= len (_content b))
    by (destruct (_content b); [congruence | unfold len; cbn; lia]).
  unfold BlipRefs._execute, BlipQuery.all.
  cbn [BlipRefs.execute_loop BlipRefs.next_hit BlipRefs.blip].
  rewrite str_find_empty. cbn [Z.eqb]. change (0 + len (@nil ascii)) with 0.
  assert (Hrun : BlipRefs.execute_hit how (BlipRefs.mkExec b 0 []) (0, 0)
                 = inl position_error).
  { apply execute_hit_range_error; [right; reflexivity|].
    cbn [BlipRefs.blip]. unfold Blip.__len__.
    rewrite normalize_eq by apply len_nonneg. cbn [fst snd].
    apply check_range_spec. split; [lia|]. unfold in_range, relative.
    change (0 <? 0) with false. cbn [andb]. cbv iota.
    destruct (decide (len (_content b) = 0)); lia. }
  rewrite Hrun. reflexivity.
Qed.

Lemma X23_empty_pattern_mutation_fails_witness :
  BlipRefs._execute 1 abc (BlipQuery.all (Some []) (-1)) BlipRefs.DELETE
  = Some (inl (position_error, abc)).
Proof.
  apply (X23_empty_pattern_mutation_fails abc (-1) BlipRefs.DELETE 0).
  discriminate.
Defined.

(** *** Searching while replacing *)

(** A search from an occurrence finds that occurrence. *)
Lemma str_find_at (s sub : text) (pos : Z) :
  occurs_at s sub pos -> str_find s sub pos = pos.
Proof.
  intros Hocc. assert (Hpos : 0 <= pos) by apply Hocc.
  pose proof (str_find_occurs s sub pos pos Hpos (Z.le_refl _) Hocc) as Hne.
  destruct (str_find_found s sub pos _ Hpos eq_refl Hne) as (Hle & _ & Hmin).
  destruct (Z.eq_dec (str_find s sub pos) pos) as [E|E]; [exact E|].
  exfalso. apply (Hmin pos); [lia | exact Hocc].
Qed.

(** Replacing an occurrence of [what] by two copies of it leaves an
    occurrence right after the offset the search goes on from. *)
Lemma replace_doubles (st : BlipRefs.Exec) (what : text)
    (v : BlipRefs.Content) (p : Z) :
  what <> [] ->
  BlipRefs.decode v = inr (inl (what ++ what)) ->
  BlipRefs.next_index st = 0 ->
  occurs_at (_content (BlipRefs.blip st)) what p ->
  exists st',
    BlipRefs.execute_hit (BlipRefs.REPLACE [v])
      st (p, p + len what) = inr st'
    /\ BlipRefs.next_index st' = 0
    /\ occurs_at (_content (BlipRefs.blip st')) what (p + len what).
Proof.
  intros Hne Hdec Hidx Hocc.
  assert (Hw : 1 <= len what)
    by (destruct what; [congruence | unfold len; cbn; lia]).
  pose proof (occurs_at_bound _ _ _ Hocc) as Hb.
  destruct Hocc as [Hp [post Hpost]].
  set (c := _content (BlipRefs.blip st)) in *.
  assert (Hnorm : BlipRefs.normalize (len c) p (p + len what) = (p, p + len what)).
  { rewrite normalize_eq by apply len_nonneg. unfold relative.
    replace (p <? 0) with false by (symmetry; lia). cbn [andb].
    replace (p + len what <? 0) with false by (symmetry; lia). reflexivity. }
  assert (Hcheck : BlipRefs.check_range (len c) p (p + len what) = None).
  { apply check_range_spec. unfold in_range. destruct (decide (len c = 0)); lia. }
  eexists. split; [|split].
  - unfold BlipRefs.execute_hit. cbn [fst snd]. unfold Blip.__len__. fold c.
    rewrite Hnorm, Hcheck, Hidx.
    change (BlipRefs.pick [v] 0) with (@inr PyError _ (v, (0 + 1) mod len [v])).
    cbv iota beta. rewrite Hdec. reflexivity.
  - reflexivity.
  - cbn [BlipRefs.blip BlipRefs.splice Blip._shift _content]. fold c.
    rewrite slice_to_in, slice_from_in by lia.
    assert (Htake : length (take (Z.to_nat p) c) = Z.to_nat p)
      by (rewrite length_take; unfold len in *; lia).
    split.
    + rewrite !len_app, len_take, len_drop by lia. lia.
    + replace (Z.to_nat (p + len what)) with (Z.to_nat p + length what)%nat
        by (unfold len; lia).
      rewrite <- app_assoc.
      rewrite <- Htake at 1. rewrite drop_app_add', drop_app_length' by reflexivity.
      apply prefix_app_r. reflexivity.
Qed.

Lemma replace_doubles_loop (what : text) (v : BlipRefs.Content)
    (maxres : Z) (fuel : nat) :
  what <> [] -> maxres <= 0 ->
  BlipRefs.decode v = inr (inl (what ++ what)) ->
  forall st idx count,
    0 <= count ->
    BlipRefs.next_index st = 0 ->
    occurs_at (_content (BlipRefs.blip st)) what (idx + len what) ->
    BlipRefs.execute_loop fuel (BlipRefs.All (Some what) maxres)
      (BlipRefs.REPLACE [v])
      (BlipRefs.Yielded idx count) st = None.
Proof.
  intros Hne Hmax Hdec. induction fuel as [|fuel IH]; intros st idx count Hcount Hidx Hocc;
    [reflexivity|].
  cbn [BlipRefs.execute_loop BlipRefs.next_hit].
  replace (count + 1 =? maxres) with false by (symmetry; lia).
  rewrite (str_find_at _ _ _ Hocc).
  replace (idx + len what =? -1) with false
    by (symmetry; destruct Hocc as [[? ?] _]; lia).
  destruct (replace_doubles st what v (idx + len what) Hne Hdec Hidx Hocc)
    as (st' & Hrun & Hidx' & Hocc').
  rewrite Hrun. apply IH; [lia | exact Hidx' | exact Hocc'].
Qed.

(** X24.  Replacing every occurrence of a unicode string that is not
    empty by two copies of it (given as a unicode string, or as a byte
    string that decodes to it) never ends when the number of results is
    not bounded (max_results <= 0) and the string occurs at all: the
    search goes on in the content as the replacement left it and finds
    the second copy, so no number of rounds of the loop is enough. *)
Theorem X24_replace_by_double_never_ends (b : Blip) (what : text)
    (v : BlipRefs.Content) (maxres : Z) (fuel : nat) :
  what <> [] -> maxres <= 0 ->
  v = BlipRefs.Text (what ++ what) \/ v = BlipRefs.Str (Some (what ++ what)) ->
  (exists i, occurs_at (_content b) what i) ->
  BlipRefs._execute fuel b (BlipQuery.all (Some what) maxres)
    (BlipRefs.REPLACE [v]) = None.
Proof.
  intros Hne Hmax Hv [i Hi].
  assert (Hdec : BlipRefs.decode v = inr (inl (what ++ what)))
    by (destruct Hv as [-> | ->]; reflexivity). destruct fuel as [|fuel]; [reflexivity|].
  unfold BlipRefs._execute, BlipQuery.all.
  cbn [BlipRefs.execute_loop BlipRefs.next_hit BlipRefs.blip].
  assert (Hfound : str_find (_content b) what 0 <> -1).
  { apply (str_find_occurs _ _ 0 i); [lia | apply Hi | exact Hi]. }
  destruct (str_find_found (_content b) what 0 _ (Z.le_refl 0) eq_refl Hfound)
    as (_ & Hocc & _).
  replace (str_find (_content b) what 0 =? -1) with false by (symmetry; lia).
  destruct (replace_doubles (BlipRefs.mkExec b 0 []) what v _ Hne Hdec eq_refl Hocc)
    as (st' & Hrun & Hidx' & Hocc').
  rewrite Hrun.
  apply replace_doubles_loop;
    [exact Hne | exact Hmax | exact Hdec | lia | exact Hidx' | exact Hocc'].
Qed.

Lemma X24_replace_by_double_never_ends_witness :
  BlipRefs._execute 50 banana (BlipQuery.all (Some (list_ascii_of_string "an")) (-1))
    (BlipRefs.REPLACE [BlipRefs.Text (list_ascii_of_string "an" ++ list_ascii_of_string "an")])
  = None.
Proof.
  apply (X24_replace_by_double_never_ends banana (list_ascii_of_string "an")
           (BlipRefs.Text (list_ascii_of_string "an" ++ list_ascii_of_string "an"))
           (-1) 50).
  - discriminate.
  - lia.
  - left. reflexivity.
  - exists 1. split; [vm_compute; split; discriminate|].
    exists (list_ascii_of_string "ana"). reflexivity.
Defined.

(** ** Building a blip *)

Lemma add_contains (st : Annotations.store) (name value other : string)
    (start end_ : Z) :
  Annotations.__contains__
    (Annotations._add_internal st name value start end_) other = true
  <-> other = name \/ Annotations.__contains__ st other = true.
Proof.
  unfold Annotations.__contains__, Annotations._add_internal.
  destruct (decide (other = name)) as [->|Hne].
  - destruct (st !! name) as [l|].
    + destruct (Annotations._add_loop value start end_ [] l) as [[s' e'] nl].
      rewrite lookup_insert_eq. tauto.
    + rewrite lookup_insert_eq. tauto.
  - assert (E : forall l, (<[name := l]> st) !! other = st !! other)
      by (intros l; apply lookup_insert_ne; congruence).
    destruct (st !! name) as [l|].
    + destruct (Annotations._add_loop value start end_ [] l) as [[s' e'] nl].
      rewrite E. tauto.
    + rewrite E. tauto.
Qed.

(** X25.  A blip built from JSON data holds in its store exactly the
    names of the annotations of the data, each annotation filed under
    its own name, and its content is the content of the data. *)
Theorem X25_init_annotations (content : text)
    (annotations : list (string * string * Z * Z))
    (elements : list (Z * Element)) :
  _content (Blip.__init__ content annotations elements) = content
  /\ names_consistent (_annotations (Blip.__init__ content annotations elements))
  /\ forall name,
       Annotations.__contains__
         (_annotations (Blip.__init__ content annotations elements)) name = true
       <-> exists value start end_, (name, value, start, end_) ∈ annotations.
Proof.
  split; [reflexivity|]. cbn [Blip.__init__ _annotations].
  assert (H : forall (st : Annotations.store),
            names_consistent st ->
            names_consistent
              (foldl (fun st '(name, value, start, end_) =>
                        Annotations._add_internal st name value start end_)
                     st annotations)
            /\ forall name,
                 Annotations.__contains__
                   (foldl (fun st '(name, value, start, end_) =>
                             Annotations._add_internal st name value start end_)
                          st annotations) name = true
                 <-> Annotations.__contains__ st name = true
                     \/ exists value start end_,
                          (name, value, start, end_) ∈ annotations).
  { induction annotations as [|[[[n v] s] e] l IH]; intros st Hst; cbn [foldl].
    - split; [exact Hst|]. intros name. split; [auto|].
      intros [H|(v & s & e & H)]; [exact H|]. apply elem_of_nil in H as [].
    - destruct (IH (Annotations._add_internal st n v s e)
                  (add_keeps_names _ _ _ _ _ Hst)) as [IH1 IH2].
      split; [exact IH1|]. intros name. rewrite IH2, add_contains. split.
      + intros [[->|H]|(v' & s' & e' & H)].
        * right. exists v, s, e. left.
        * left. exact H.
        * right. exists v', s', e'. right. exact H.
      + intros [H|(v' & s' & e' & H)].
        * left. right. exact H.
        * apply elem_of_cons in H as [[= -> -> -> ->]|H].
          -- left. left. reflexivity.
          -- right. eauto. }
  destruct (H ∅) as [H1 H2].
  { intros k l Hk. rewrite lookup_empty in Hk. discriminate Hk. }
  split; [exact H1|]. intros name. rewrite H2.
  unfold Annotations.__contains__ at 1. rewrite lookup_empty. split.
  - intros [H'|H']; [discriminate H' | exact H'].
  - intros H'. right. exact H'.
Qed.

(** ** Finding *)




